(** * haraqa: the multi-root writer and the HTTP handlers of the broker

    A shallow embedding of
    - [internal/filequeue/multiwriter.go]: [MultiWriteAtCloser] and its
      [Close], [WriteAt] and [CopyNAt] methods;
    - [pkg/server/handlers.go]: [getTopic], [HandleOptions],
      [HandleGetAllTopics], [HandleModifyTopic] and [HandleConsume];
    together with the parts of the Go standard library these functions call.

    Go values are embedded as follows.  An [error] interface value is an
    [option error] ([None] is [nil]).  A [string] is a Rocq [string] (a
    sequence of 8-bit characters), a [[]byte] written to a file is a
    [list byte].  An [int64] or [int] is a [Z]; the code only compares such
    numbers, so no wrap-around arises.  A method with a pointer or interface
    receiver takes the receiver's state and returns the new state next to
    its Go results. *)

From Stdlib Require Import ZArith Lia List Ascii String.
From Stdlib.Init Require Import Byte.
From stdpp Require Import base decidable option list strings pretty gmap.

Local Open Scope string_scope.
Local Open Scope Z_scope.

(** ** Errors *)

(** The error values that occur: the sentinels of [io], [strconv] and of
    the repository's [internal/headers] package, [errors.New] and
    [errors.Wrap] of [github.com/pkg/errors]. *)
Inductive error : Type :=
| EOF
| ErrUnexpectedEOF
| ErrShortBuffer
| ErrSyntax
| ErrRange
| ErrInvalidTopic
| ErrInvalidMessageID
| ErrInvalidMessageLimit
| ErrInvalidBodyMissing
| ErrInvalidBodyJSON
| ErrNoContent
| New (msg : string)
| Wrap (cause : error) (msg : string).

#[global] Instance error_eq_dec : EqDecision error.
Proof. solve_decision. Defined.

Module errors.

(** The chain walk of [errors.Is]: [err] or an error it wraps is
    [target]. *)
Fixpoint unwraps_to (err target : error) : bool :=
  if decide (err = target) then true
  else match err with
       | Wrap cause _ => unwraps_to cause target
       | _ => false
       end.

(** [errors.Is(err, target)] for a non-nil [target]. *)
Definition Is (err : option error) (target : error) : bool :=
  match err with
  | None => false
  | Some e => unwraps_to e target
  end.

(** [errors.Wrap(err, msg)] is [nil] for a [nil] error. *)
Definition Wrap (err : option error) (msg : string) : option error :=
  match err with
  | None => None
  | Some e => Some (Wrap e msg)
  end.

End errors.

(** ** Package io *)

Module io.

(** [io.Closer]. *)
Class Closer (W : Type) := { Close : W → W * option error }.

(** [io.WriterAt]: [WriteAt w p off] is the call [w.WriteAt(p, off)], with
    the state of [w] after the call and its results [(n, err)]. *)
Class WriterAt (W : Type) :=
  { WriteAt : W → list byte → Z → W * (Z * option error) }.

(** [io.Reader]: [Read r k] is one call [r.Read(p)] with [len(p) = k]; it
    yields the bytes stored at the front of [p] (their number is the [n]
    of Go) and [err]. *)
Class Reader (R : Type) :=
  { Read : R → nat → R * (list byte * option error) }.

(** The buffer [buf] after a [Read(buf[n:])] that produced [bs]: a
    reader cannot store past the end of the slice it was given. *)
Definition fill (buf : list byte) (n : nat) (bs : list byte) : list byte :=
  take n buf ++ take (length buf - n) bs ++ drop (n + length bs) buf.

Section ReadAtLeast.
Context {R : Type} {HR : Reader R}.

(** The loop [for n < min && err == nil] of [io.ReadAtLeast].  [None]
    when [fuel] iterations did not end it. *)
Fixpoint readLoop (fuel : nat) (r : R) (buf : list byte) (n min : nat)
    (err : option error) : option (R * list byte * nat * option error) :=
  if decide (n < min ∧ err = None)%nat then
    match fuel with
    | O => None
    | S fuel' =>
        let '(r', (bs, err')) := Read r (length buf - n) in
        let nn := length (take (length buf - n) bs) in
        readLoop fuel' r' (fill buf n bs) (n + nn) min err'
    end
  else Some (r, buf, n, err).

(** [io.ReadAtLeast(r, buf, min)], with the buffer after the call. *)
Definition ReadAtLeast (fuel : nat) (r : R) (buf : list byte) (min : nat)
    : option (R * list byte * nat * option error) :=
  if decide (length buf < min)%nat then Some (r, buf, 0%nat, Some ErrShortBuffer)
  else
    match readLoop fuel r buf 0 min None with
    | None => None
    | Some (r', buf', n, err) =>
        let err :=
          if decide (min ≤ n)%nat then None
          else if decide ((0 < n)%nat ∧ err = Some EOF) then Some ErrUnexpectedEOF
          else err in
        Some (r', buf', n, err)
    end.
End ReadAtLeast.

End io.

(** ** Package filequeue: multiwriter.go *)

Module filequeue.

(** [type WriteAtCloser interface { io.Closer; io.WriterAt }]. *)
Class WriteAtCloser (W : Type) :=
  { WriteAtCloser_Closer : io.Closer W;
    WriteAtCloser_WriterAt : io.WriterAt W }.
#[global] Existing Instance WriteAtCloser_Closer.
#[global] Existing Instance WriteAtCloser_WriterAt.

(** How a call ends: it returns its [error] result, or it panics. *)
Inductive outcome : Type :=
| Returned (err : option error)
| Panicked.

(** [type MultiWriteAtCloser []WriteAtCloser]: the states of the
    underlying writers, in slice order. *)
Module MultiWriteAtCloser.
Section methods.
Context {W : Type} {HW : WriteAtCloser W}.

(** The [range] loop of [Close]; [err] is the local variable. *)
Fixpoint CloseLoop (mw : list W) (err : option error) : list W * option error :=
  match mw with
  | [] => ([], err)
  | w :: rest =>
      let '(w', e) := io.Close w in
      let err := match e with Some _ => e | None => err end in
      let '(rest', err') := CloseLoop rest err in
      (w' :: rest', err')
  end.

Definition Close (mw : list W) : list W * option error :=
  CloseLoop mw None.

Fixpoint WriteAt (mw : list W) (p : list byte) (off : Z) : list W * option error :=
  match mw with
  | [] => ([], None)
  | w :: rest =>
      let '(w', (n, err)) := io.WriteAt w p off in
      if bool_decide (err ≠ None) && negb (errors.Is err EOF) then (w' :: rest, err)
      else if bool_decide (n ≠ Z.of_nat (length p))
      then (w' :: rest, Some (New "incomplete write"))
      else let '(rest', e) := WriteAt rest p off in (w' :: rest', e)
  end.

(** The buffer of [CopyNAt].  [bufPool] is declared in another file
    of the package: [pooled] is the backing array of the buffer that
    [bufPool.Get()] hands out, so [cap(buf) = length pooled]; handing
    the buffer back to the pool is not tracked.  [buf[:N]] panics for
    a negative [N], which is [None] here. *)
Definition getBuf (pooled : list byte) (N : Z) : option (list byte) :=
  if decide (N > Z.of_nat (length pooled)) then Some (replicate (Z.to_nat N) x00)
  else if decide (N < 0) then None
  else Some (take (Z.to_nat N) pooled).

(** [CopyNAt(r, N, off)]; [None] when the read loop did not end
    within [fuel] iterations. *)
Definition CopyNAt {R : Type} {HR : io.Reader R} (fuel : nat) (pooled : list byte)
    (mw : list W) (r : R) (N off : Z) : option (R * list W * outcome) :=
  match getBuf pooled N with
  | None => Some (r, mw, Panicked)
  | Some buf =>
      match io.ReadAtLeast fuel r buf (length buf) with
      | None => None
      | Some (r', buf', _, Some err) =>
          Some (r', mw, Returned (errors.Wrap (Some err) "unable to read input"))
      | Some (r', buf', _, None) =>
          let '(mw', err) := WriteAt mw buf' off in
          Some (r', mw', Returned (errors.Wrap err "unable to copy to log file"))
      end
  end.
End methods.
End MultiWriteAtCloser.

End filequeue.

(** ** Package strings *)

Module strings.

(** [strings.TrimPrefix(s, prefix)]. *)
Fixpoint cutPrefix (s prefix : string) : option string :=
  match prefix, s with
  | EmptyString, _ => Some s
  | String c prefix', String d s' =>
      if decide (c = d) then cutPrefix s' prefix' else None
  | String _ _, EmptyString => None
  end.

Definition TrimPrefix (s prefix : string) : string :=
  match cutPrefix s prefix with
  | Some rest => rest
  | None => s
  end.

(** [strings.Join(elems, sep)]. *)
Fixpoint Join (elems : list string) (sep : string) : string :=
  match elems with
  | [] => ""
  | [e] => e
  | e :: rest => e +:+ sep +:+ Join rest sep
  end.

(** [strings.ToLower] and [strings.TrimSpace] read the Unicode tables of
    the Go run time.  They are taken as an interface; [ascii] below
    implements it for strings of 7-bit characters. *)
Class Unicode := { ToLower : string → string; TrimSpace : string → string }.

Definition isUpper (c : ascii) : bool := Ascii.leb "A" c && Ascii.leb c "Z".
Definition isLower (c : ascii) : bool := Ascii.leb "a" c && Ascii.leb c "z".
Definition lower (c : ascii) : ascii :=
  if isUpper c then ascii_of_N (N_of_ascii c + 32) else c.
Definition upper (c : ascii) : ascii :=
  if isLower c then ascii_of_N (N_of_ascii c - 32) else c.

Fixpoint mapBytes (f : ascii → ascii) (s : string) : string :=
  match s with
  | EmptyString => EmptyString
  | String c s' => String (f c) (mapBytes f s')
  end.

(** White space among the 7-bit characters: tab, line feed, vertical
    tab, form feed, carriage return and space. *)
Definition isSpace (c : ascii) : bool :=
  (Ascii.leb "009" c && Ascii.leb c "013") || Ascii.eqb c " ".

Fixpoint trimLeft (s : string) : string :=
  match s with
  | EmptyString => EmptyString
  | String c s' => if isSpace c then trimLeft s' else s
  end.

Fixpoint trimRight (s : string) : string :=
  match s with
  | EmptyString => EmptyString
  | String c s' =>
      match trimRight s' with
      | EmptyString => if isSpace c then EmptyString else String c EmptyString
      | t => String c t
      end
  end.

Definition ascii : Unicode :=
  {| ToLower := mapBytes lower; TrimSpace := λ s, trimRight (trimLeft s) |}.

End strings.

(** ** Package strconv *)

Module strconv.

Definition digit (c : ascii) : option Z :=
  if Ascii.leb "0" c && Ascii.leb c "9"
  then Some (Z.of_N (N_of_ascii c) - 48) else None.

Definition maxUint64 : Z := 2 ^ 64 - 1.

(** The digit loop of [ParseUint(s, 10, 64)] from the value [n] read so
    far: a character that is no digit is a syntax error, a value past
    [maxUint64] a range error. *)
Fixpoint parseDigits (s : string) (n : Z) : Z + error :=
  match s with
  | EmptyString => inl n
  | String c s' =>
      match digit c with
      | None => inr ErrSyntax
      | Some d =>
          if bool_decide (maxUint64 `div` 10 + 1 ≤ n) then inr ErrRange
          else let n1 := n * 10 + d in
               if bool_decide (maxUint64 < n1) then inr ErrRange
               else parseDigits s' n1
      end
  end.

Definition ParseUint (s : string) : Z + error :=
  match s with
  | EmptyString => inr ErrSyntax
  | _ => parseDigits s 0
  end.

(** [strconv.ParseInt(s, 10, 64)]: an optional sign, then decimal
    digits; the value must fit an [int64]. *)
Definition ParseInt (s : string) : Z + error :=
  match s with
  | EmptyString => inr ErrSyntax
  | String c s' =>
      let neg := bool_decide (c = "-"%char) in
      let digits := if bool_decide (c = "+"%char) || neg then s' else s in
      match ParseUint digits with
      | inr e => inr e
      | inl un =>
          if negb neg && bool_decide (2 ^ 63 ≤ un) then inr ErrRange
          else if neg && bool_decide (2 ^ 63 < un) then inr ErrRange
          else inl (if neg then - un else un)
      end
  end.

End strconv.

(** ** Package path/filepath *)

Module filepath.

Definition IsPathSeparator (c : ascii) : bool := Ascii.eqb c "/".

(** The path elements: the runs of characters between separators. *)
Fixpoint elements (path : string) : list string :=
  match path with
  | EmptyString => [EmptyString]
  | String c rest =>
      if IsPathSeparator c then EmptyString :: elements rest
      else match elements rest with
           | e :: es => String c e :: es
           | [] => [String c EmptyString]
           end
  end.

(** One round of the loop of [Clean], on a whole path element.  [out]
    holds the elements written so far, last one first; [dotdot] is the
    number of elements at the start of the output that [..] must not
    remove (the leading [../..] of a path that is not rooted). *)
Definition step (rooted : bool) (st : list string * nat) (e : string)
    : list string * nat :=
  let '(out, dotdot) := st in
  if decide (e = "") then st
  else if decide (e = ".") then st
  else if decide (e = "..") then
    if decide (dotdot < length out)%nat then (tail out, dotdot)
    else if negb rooted then (".." :: out, S (length out))
    else st
  else (e :: out, dotdot).

Definition rooted (path : string) : bool :=
  match path with
  | String c _ => IsPathSeparator c
  | EmptyString => false
  end.

(** [filepath.Clean] where the separator is the slash and paths have no
    volume name. *)
Definition Clean (path : string) : string :=
  if decide (path = "") then "."
  else
    let '(out, _) := fold_left (step (rooted path)) (elements path) ([], 0%nat) in
    if rooted path then String "/" (strings.Join (rev out) "/")
    else if decide (out = []) then "."
    else strings.Join (rev out) "/".

End filepath.

(** ** Package net/textproto *)

Module textproto.

(** The characters of an HTTP token (RFC 7230). *)
Definition validHeaderFieldByte (c : ascii) : bool :=
  strings.isUpper c || strings.isLower c
  || (Ascii.leb "0" c && Ascii.leb c "9")
  || bool_decide (c ∈ ["!"; "#"; "$"; "%"; "&"; "'"; "*"; "+"; "-"; ".";
                       "^"; "_"; "`"; "|"; "~"]%char).

Fixpoint allValid (s : string) : bool :=
  match s with
  | EmptyString => true
  | String c s' => validHeaderFieldByte c && allValid s'
  end.

(** The second loop of [canonicalMIMEHeaderKey]: upper case for the
    first letter and for a letter after a dash, lower case elsewhere. *)
Fixpoint canonical (upper : bool) (s : string) : string :=
  match s with
  | EmptyString => EmptyString
  | String c s' =>
      let c' := if upper && strings.isLower c then strings.upper c
                else if negb upper && strings.isUpper c then strings.lower c
                else c in
      String c' (canonical (Ascii.eqb c' "-") s')
  end.

(** [textproto.CanonicalMIMEHeaderKey]: a key with a character that is
    not valid in a header field name is returned as it is. *)
Definition CanonicalMIMEHeaderKey (s : string) : string :=
  if allValid s then canonical true s else s.

End textproto.

(** ** Package net/url *)

Module url.

(** [url.Values.Get]: the first value of [key], or the empty string. *)
Definition Get (v : gmap string (list string)) (key : string) : string :=
  match v !! key with
  | Some (x :: _) => x
  | _ => ""
  end.

End url.

(** ** Package net/http *)

Module http.

Definition StatusOK : Z := 200.
Definition StatusNoContent : Z := 204.
Definition StatusBadRequest : Z := 400.
Definition StatusInternalServerError : Z := 500.

Definition CanonicalHeaderKey (s : string) : string :=
  textproto.CanonicalMIMEHeaderKey s.

(** [http.Header] is a [map[string][]string]. *)
Definition Header_Values (h : gmap string (list string)) (key : string) : list string :=
  default [] (h !! CanonicalHeaderKey key).

Definition Header_Get (h : gmap string (list string)) (key : string) : string :=
  match Header_Values h key with
  | x :: _ => x
  | [] => ""
  end.

Definition Header_Set (h : gmap string (list string)) (key value : string)
    : gmap string (list string) :=
  <[CanonicalHeaderKey key := [value]]> h.

(** The fields of [*http.Request] that the handlers read: [r.URL.Path],
    the parsed query [r.URL.Query()], [r.Header] and [r.Body] ([None] is
    a nil body; the handlers' [Close] of the body is not tracked). *)
Record Request : Type :=
  { URL_Path : string;
    URL_Query : gmap string (list string);
    Header : gmap string (list string);
    Body : option string }.

(** An [http.ResponseWriter], with the state that
    [httptest.ResponseRecorder] keeps: the header map the handler
    edits, and, once the header is written, the status code and the
    headers sent with it. *)
Record ResponseWriter : Type :=
  { header : gmap string (list string);
    wroteHeader : bool;
    code : Z;
    sent : gmap string (list string);
    body : string }.

Definition NewRecorder : ResponseWriter :=
  {| header := ∅; wroteHeader := false; code := 200; sent := ∅; body := "" |}.

(** [w.Header()[key] = values]. *)
Definition setHeader (w : ResponseWriter) (key : string) (values : list string)
    : ResponseWriter :=
  {| header := <[key := values]> (header w); wroteHeader := wroteHeader w;
     code := code w; sent := sent w; body := body w |}.

(** [w.Header().Set(key, value)]. *)
Definition SetHeader (w : ResponseWriter) (key value : string) : ResponseWriter :=
  {| header := Header_Set (header w) key value; wroteHeader := wroteHeader w;
     code := code w; sent := sent w; body := body w |}.

(** [w.WriteHeader(statusCode)]: only the first call counts. *)
Definition WriteHeader (w : ResponseWriter) (statusCode : Z) : ResponseWriter :=
  if wroteHeader w then w
  else {| header := header w; wroteHeader := true; code := statusCode;
          sent := header w; body := body w |}.

(** [w.Write(b)]: writes the header with status 200 first if it was
    not written. *)
Definition Write (w : ResponseWriter) (b : string) : ResponseWriter :=
  let w := WriteHeader w StatusOK in
  {| header := header w; wroteHeader := wroteHeader w; code := code w;
     sent := sent w; body := body w +:+ b |}.

End http.

(** ** Package internal/headers *)

Module headers.

Definition ContentType : string := "Content-Type".
Definition ErrorHeader : string := "X-Error".

(** Modelled from the spec: [headers.ModifyRequest], the JSON body
    [{truncate: <int64>, before: <RFC3339>}] of a PATCH request; the
    package is not among the sources. *)
Record ModifyRequest : Type := { Truncate : Z; Before : string }.

(** Modelled from the spec: [headers.TopicInfo], the pair
    [(minOffset, maxOffset)] of a topic. *)
Record TopicInfo : Type := { MinOffset : Z; MaxOffset : Z }.

(** Modelled from the spec: the text of an error, which for the
    sentinels of this package is the stable token of section 7. *)
Fixpoint Error (err : error) : string :=
  match err with
  | EOF => "EOF"
  | ErrUnexpectedEOF => "unexpected EOF"
  | ErrShortBuffer => "short buffer"
  | ErrSyntax => "invalid syntax"
  | ErrRange => "value out of range"
  | ErrInvalidTopic => "invalid-topic"
  | ErrInvalidMessageID => "invalid-message-id"
  | ErrInvalidMessageLimit => "invalid-message-limit"
  | ErrInvalidBodyMissing => "invalid-body-missing"
  | ErrInvalidBodyJSON => "invalid-body-json"
  | ErrNoContent => "no-content"
  | New msg => msg
  | Wrap cause msg => msg +:+ ": " +:+ Error cause
  end.

(** Modelled from the spec: the status of an error.  An empty consume
    is 204, a validation error is 4xx (400 here), any other error 5xx
    (500, as the handler test expects for an error of the queue). *)
Definition status (err : error) : Z :=
  match err with
  | ErrNoContent => http.StatusNoContent
  | ErrInvalidTopic | ErrInvalidMessageID | ErrInvalidMessageLimit
  | ErrInvalidBodyMissing | ErrInvalidBodyJSON => http.StatusBadRequest
  | _ => http.StatusInternalServerError
  end.

(** Modelled from the spec: [headers.SetError(w, err)] puts the error
    in the [X-Error] header and writes the status of the error. *)
Definition SetError (w : http.ResponseWriter) (err : error) : http.ResponseWriter :=
  http.WriteHeader (http.setHeader w ErrorHeader [Error err]) (status err).

End headers.

(** ** Package encoding/json *)

Module json.

(** The string literal of a Go string (escapes, invalid UTF-8) and the
    decoding of a request body into a [ModifyRequest] are an interface
    of the embedding. *)
Class Codec :=
  { encodeString : string → string;
    decodeModifyRequest : string → option headers.ModifyRequest }.

Definition quote (s : string) : string := String "034" (s +:+ String "034" "").

Section encode.
Context {HC : Codec}.

(** A [[]string]: [null] for a nil slice, else an array. *)
Definition encodeStrings (v : option (list string)) : string :=
  match v with
  | None => "null"
  | Some l => "[" +:+ strings.Join (map encodeString l) "," +:+ "]"
  end.

(** [json.Marshal(map[string][]string{key: v})]. *)
Definition Marshal (key : string) (v : option (list string)) : string :=
  "{" +:+ quote key +:+ ":" +:+ encodeStrings v +:+ "}".
End encode.

(** [json.NewEncoder(w).Encode(&info)] for a [TopicInfo]: the object
    and a line feed. *)
Definition EncodeTopicInfo (info : headers.TopicInfo) : string :=
  "{" +:+ quote "minOffset" +:+ ":" +:+ pretty (headers.MinOffset info) +:+ ","
      +:+ quote "maxOffset" +:+ ":" +:+ pretty (headers.MaxOffset info) +:+ "}"
      +:+ String "010" "".

End json.

(** ** Package server: handlers.go *)

Module server.

(** The [Queue] interface of the package, for the methods that the
    handlers below call.  [Consume] is handed the response writer and
    may write to it. *)
Class Queue (Q : Type) :=
  { ListTopics : Q → string → string → string → Q * (option (list string) * option error);
    ModifyTopic : Q → string → headers.ModifyRequest → Q * (headers.TopicInfo * option error);
    Consume : Q → string → Z → Z → http.ResponseWriter
              → Q * http.ResponseWriter * (Z * option error) }.

(** The calls of the [Metrics] interface, in the order they are made. *)
Inductive metric : Type :=
| ProduceMsgs (n : Z)
| ConsumeMsgs (n : Z).

Record Server (Q : Type) : Type :=
  { q : Q;
    metrics : list metric;
    defaultConsumeLimit : Z }.
Arguments q {Q} _.
Arguments metrics {Q} _.
Arguments defaultConsumeLimit {Q} _.

Section handlers.
Context {Q : Type} {HQ : Queue Q} {HU : strings.Unicode} {HC : json.Codec}.

Definition withQueue (s : Server Q) (q' : Q) : Server Q :=
  {| q := q'; metrics := metrics s; defaultConsumeLimit := defaultConsumeLimit s |}.

Definition record (s : Server Q) (m : metric) : Server Q :=
  {| q := q s; metrics := metrics s ++ [m]; defaultConsumeLimit := defaultConsumeLimit s |}.

Definition getTopic (r : http.Request) : string * option error :=
  let topic :=
    filepath.Clean (strings.ToLower (strings.TrimPrefix (http.URL_Path r) "/topics/")) in
  if bool_decide (topic = "") || bool_decide (topic = ".")
  then ("", Some ErrInvalidTopic)
  else (topic, None).

(** The loop of [HandleOptions] over the requested headers. *)
Fixpoint allowedHeaders (requestHeaders : list string) : list string :=
  match requestHeaders with
  | [] => []
  | v :: rest =>
      let canonicalHeader := http.CanonicalHeaderKey (strings.TrimSpace v) in
      if bool_decide (canonicalHeader = "") then allowedHeaders rest
      else canonicalHeader :: allowedHeaders rest
  end.

Definition HandleOptions (s : Server Q) (w : http.ResponseWriter) (r : http.Request)
    : Server Q * http.ResponseWriter :=
  let requestHeaders := http.Header_Values (http.Header r) "Access-Control-Request-Headers" in
  let allowed := allowedHeaders requestHeaders in
  let w := if bool_decide (0 < length allowed)%nat
           then http.setHeader w "Access-Control-Allow-Headers" allowed
           else w in
  let method := http.Header_Get (http.Header r) "Access-Control-Request-Method" in
  let w := http.SetHeader w "Access-Control-Allow-Methods" method in
  (s, http.WriteHeader w http.StatusOK).

Definition HandleGetAllTopics (s : Server Q) (w : http.ResponseWriter) (r : http.Request)
    : Server Q * http.ResponseWriter :=
  let query := http.URL_Query r in
  let '(q', (topics, err)) :=
    ListTopics (q s) (url.Get query "prefix") (url.Get query "suffix")
               (url.Get query "regex") in
  let s := withQueue s q' in
  match err with
  | Some e => (s, headers.SetError w e)
  | None =>
      let topics := match topics with None => Some [] | Some _ => topics end in
      if bool_decide (http.Header_Get (http.Header r) "Accept" = "application/json")
      then
        let w := http.setHeader w headers.ContentType ["application/json"] in
        (s, http.Write w (json.Marshal "topics" topics))
      else
        let w := http.setHeader w headers.ContentType ["text/csv"] in
        (s, http.Write w (strings.Join (default [] topics) ","))
  end.

Definition HandleModifyTopic (s : Server Q) (w : http.ResponseWriter) (r : http.Request)
    : Server Q * http.ResponseWriter :=
  match http.Body r with
  | None => (s, headers.SetError w ErrInvalidBodyMissing)
  | Some b =>
      match getTopic r with
      | (_, Some err) => (s, headers.SetError w err)
      | (topic, None) =>
          match json.decodeModifyRequest b with
          | None => (s, headers.SetError w ErrInvalidBodyJSON)
          | Some request =>
              if bool_decide (headers.Truncate request = 0)
              then (s, http.WriteHeader w http.StatusNoContent)
              else
                let '(q', (info, err)) := ModifyTopic (q s) topic request in
                let s := withQueue s q' in
                match err with
                | Some e => (s, headers.SetError w e)
                | None =>
                    let w := http.setHeader w headers.ContentType ["application/json"] in
                    let w := http.WriteHeader w http.StatusOK in
                    (s, http.Write w (json.EncodeTopicInfo info))
                end
          end
      end
  end.

(** The value of [limit] that [HandleConsume] hands to the queue, or
    the error it reports, from the [limit] parameter of the query. *)
Definition consumeLimit (s : Server Q) (queryLimit : string) : Z + error :=
  let limit := defaultConsumeLimit s in
  match queryLimit with
  | EmptyString => inl limit
  | String c _ =>
      if bool_decide (c ≠ "-"%char) then
        match strconv.ParseInt queryLimit with
        | inr _ => inr ErrInvalidMessageLimit
        | inl limit => if bool_decide (limit ≤ 0) then inl (defaultConsumeLimit s)
                       else inl limit
        end
      else inl limit
  end.

(** The end of [HandleConsume], from the results of [s.q.Consume]. *)
Definition consumed (s : Server Q) (res : Q * http.ResponseWriter * (Z * option error))
    : Server Q * http.ResponseWriter :=
  let '(q', w, (count, err)) := res in
  let s := withQueue s q' in
  match err with
  | Some e => (s, headers.SetError w e)
  | None =>
      if bool_decide (count = 0)
      then (s, headers.SetError w ErrNoContent)
      else (record s (ConsumeMsgs count), w)
  end.

Definition HandleConsume (s : Server Q) (w : http.ResponseWriter) (r : http.Request)
    : Server Q * http.ResponseWriter :=
  match getTopic r with
  | (_, Some err) => (s, headers.SetError w err)
  | (topic, None) =>
      match strconv.ParseInt (url.Get (http.URL_Query r) "id") with
      | inr _ => (s, headers.SetError w ErrInvalidMessageID)
      | inl id =>
          match consumeLimit s (url.Get (http.URL_Query r) "limit") with
          | inr err => (s, headers.SetError w err)
          | inl limit => consumed s (Consume (q s) topic id limit w)
          end
      end
  end.
End handlers.

End server.

(** ** Test doubles

    Small implementations of the interfaces, in the manner of the mocks
    and recorders of the repository's tests; the statements below are
    run on them. *)

Module mock.

(** A file kept in memory that takes at most [room] bytes per write,
    answers a short write with [shortErr], and logs the calls it
    receives. *)
Record File : Type :=
  { content : list byte;
    room : nat;
    shortErr : option error;
    closeErr : option error;
    writes : list (list byte * Z);
    closes : nat }.

Definition pwrite (content : list byte) (off : nat) (p : list byte) : list byte :=
  take off (content ++ replicate (off - length content) x00) ++ p
  ++ drop (off + length p) content.

Definition File_WriteAt (f : File) (p : list byte) (off : Z)
    : File * (Z * option error) :=
  let n := Nat.min (length p) (room f) in
  let f' := {| content := if bool_decide (off < 0) then content f
                          else pwrite (content f) (Z.to_nat off) (take n p);
               room := room f; shortErr := shortErr f; closeErr := closeErr f;
               writes := writes f ++ [(p, off)]; closes := closes f |} in
  if bool_decide (off < 0) then (f', (0, Some (New "negative offset")))
  else if bool_decide (n < length p)%nat then (f', (Z.of_nat n, shortErr f))
  else (f', (Z.of_nat n, None)).

Definition File_Close (f : File) : File * option error :=
  ({| content := content f; room := room f; shortErr := shortErr f;
      closeErr := closeErr f; writes := writes f; closes := S (closes f) |},
   closeErr f).

#[global] Instance File_Closer : io.Closer File := {| io.Close := File_Close |}.
#[global] Instance File_WriterAt : io.WriterAt File := {| io.WriteAt := File_WriteAt |}.
#[global] Instance File_WriteAtCloser : filequeue.WriteAtCloser File :=
  {| filequeue.WriteAtCloser_Closer := File_Closer;
     filequeue.WriteAtCloser_WriterAt := File_WriterAt |}.

Definition newFile (room : nat) (closeErr : option error) : File :=
  {| content := []; room := room; shortErr := Some (New "no space left");
     closeErr := closeErr; writes := []; closes := 0 |}.

(** A reader over a byte sequence that hands out at most [S chunk]
    bytes per call and ends with [ending] (with [io.EOF] when that is
    [None]); an [eager] one reports the end together with the last
    bytes, as [io.Reader] permits. *)
Record Source : Type :=
  { data : list byte;
    chunk : nat;
    ending : option error;
    eager : bool }.

Definition Source_Read (r : Source) (k : nat) : Source * (list byte * option error) :=
  match k with
  | O => (r, ([], None))
  | S _ =>
      match data r with
      | [] => (r, ([], Some (default EOF (ending r))))
      | _ =>
          let m := Nat.min k (S (chunk r)) in
          ({| data := drop m (data r); chunk := chunk r; ending := ending r;
              eager := eager r |},
           (take m (data r),
            if eager r && bool_decide (length (data r) ≤ m)%nat
            then Some (default EOF (ending r)) else None))
      end
  end.

#[global] Instance Source_Reader : io.Reader Source := {| io.Read := Source_Read |}.

(** A queue that answers from a script and logs the methods called. *)
Record Queue : Type :=
  { topics : option (list string);
    info : headers.TopicInfo;
    count : Z;
    failure : option error;
    calls : list string }.

Definition called (q : Queue) (name : string) : Queue :=
  {| topics := topics q; info := info q; count := count q; failure := failure q;
     calls := calls q ++ [name] |}.

#[global] Instance Queue_Queue : server.Queue Queue :=
  {| server.ListTopics := λ q _ _ _, (called q "ListTopics", (topics q, failure q));
     server.ModifyTopic := λ q _ _, (called q "ModifyTopic", (info q, failure q));
     server.Consume := λ q _ _ _ w, (called q "Consume", w, (count q, failure q)) |}.

(** A codec for plain names and for bodies of the one form
    [{truncate:<int>}] with its key quoted. *)
Definition decodeTruncate (b : string) : option headers.ModifyRequest :=
  match strings.cutPrefix b ("{" +:+ json.quote "truncate" +:+ ":") with
  | None => None
  | Some rest =>
      match strconv.ParseInt (String.substring 0 (String.length rest - 1) rest) with
      | inl n => if bool_decide (String.substring (String.length rest - 1) 1 rest = "}")
                 then Some {| headers.Truncate := n; headers.Before := "" |}
                 else None
      | inr _ => None
      end
  end.

Definition codec : json.Codec :=
  {| json.encodeString := json.quote; json.decodeModifyRequest := decodeTruncate |}.

Definition request (path : string) (query hdr : list (string * list string))
    (b : option string) : http.Request :=
  {| http.URL_Path := path; http.URL_Query := list_to_map query;
     http.Header := list_to_map hdr; http.Body := b |}.

Definition newServer (q : Queue) (limit : Z) : server.Server Queue :=
  {| server.q := q; server.metrics := []; server.defaultConsumeLimit := limit |}.

End mock.

(** ** Package server: the other handlers of handlers.go *)

Module topics.

Definition StatusCreated : Z := 201.

(** The methods of the [Queue] interface that [HandleCreateTopic],
    [HandleDeleteTopic] and [HandleProduce] call.  [Produce] is handed
    the request body. *)
Class Queue (Q : Type) :=
  { CreateTopic : Q → string → Q * option error;
    DeleteTopic : Q → string → Q * option error;
    Produce : Q → string → list Z → Z → string → Q * option error }.

(** [headers.ReadSizes(r.Header)] is not among the sources; it is an
    interface of the embedding. *)
Class Sizes := { ReadSizes : gmap string (list string) → list Z + error }.

Section handlers.
Context {Q : Type} {HQ : Queue Q} {HU : strings.Unicode} {HS : Sizes}.

Definition HandleCreateTopic (s : server.Server Q) (w : http.ResponseWriter) (r : http.Request)
    : server.Server Q * http.ResponseWriter :=
  match server.getTopic r with
  | (_, Some err) => (s, headers.SetError w err)
  | (topic, None) =>
      let '(q', err) := CreateTopic (server.q s) topic in
      let s := server.withQueue s q' in
      match err with
      | Some e => (s, headers.SetError w e)
      | None =>
          let w := http.setHeader w headers.ContentType ["text/plain"] in
          (s, http.WriteHeader w StatusCreated)
      end
  end.

Definition HandleDeleteTopic (s : server.Server Q) (w : http.ResponseWriter) (r : http.Request)
    : server.Server Q * http.ResponseWriter :=
  match server.getTopic r with
  | (_, Some err) => (s, headers.SetError w err)
  | (topic, None) =>
      let '(q', err) := DeleteTopic (server.q s) topic in
      let s := server.withQueue s q' in
      match err with
      | Some e => (s, headers.SetError w e)
      | None =>
          let w := http.setHeader w headers.ContentType ["text/plain"] in
          (s, http.WriteHeader w http.StatusNoContent)
      end
  end.

(** [HandleProduce]; [now] is [time.Now().Unix()], an [int64] that the
    handler converts to [uint64]. *)
Definition HandleProduce (now : Z) (s : server.Server Q) (w : http.ResponseWriter)
    (r : http.Request) : server.Server Q * http.ResponseWriter :=
  match http.Body r with
  | None => (s, headers.SetError w ErrInvalidBodyMissing)
  | Some b =>
      match server.getTopic r with
      | (_, Some err) => (s, headers.SetError w err)
      | (topic, None) =>
          match ReadSizes (http.Header r) with
          | inr err => (s, headers.SetError w err)
          | inl sizes =>
              let '(q', err) := Produce (server.q s) topic sizes (now `mod` 2 ^ 64) b in
              let s := server.withQueue s q' in
              match err with
              | Some e => (s, headers.SetError w e)
              | None =>
                  let s := server.record s (server.ProduceMsgs (Z.of_nat (length sizes))) in
                  let w := http.setHeader w headers.ContentType ["text/plain"] in
                  (s, http.WriteHeader w http.StatusNoContent)
              end
          end
      end
  end.
End handlers.

End topics.

(** ** Package server: server.go *)

Module options.

(** The methods of the [Queue] interface that [NewServer] and [Close]
    call. *)
Class Queue (Q : Type) :=
  { RootDir : Q → string;
    Close : Q → Q * option error }.

(** What [NewServer] sets up on the [mux.Router]: the middlewares handed
    to [Use], the directory served under [/raw/], and the routes under
    [/topics] as (path template, method, handler). *)
Record Router (Mw : Type) : Type :=
  { used : list Mw;
    raw : option string;
    routes : list (string * string * string) }.
Arguments used {Mw} _.
Arguments raw {Mw} _.
Arguments routes {Mw} _.

(** [type Server struct]; a nil queue or nil metrics is [None]. *)
Record Server (Q M Mw : Type) : Type :=
  { router : Router Mw;
    q : option Q;
    qFileCache : bool;
    qFileEntries : Z;
    defaultLimit : Z;
    dirs : list string;
    metrics : option M;
    isClosed : bool;
    middlewares : list Mw }.
Arguments router {Q M Mw} _.
Arguments q {Q M Mw} _.
Arguments qFileCache {Q M Mw} _.
Arguments qFileEntries {Q M Mw} _.
Arguments defaultLimit {Q M Mw} _.
Arguments dirs {Q M Mw} _.
Arguments metrics {Q M Mw} _.
Arguments isClosed {Q M Mw} _.
Arguments middlewares {Q M Mw} _.

Section server.
Context {Q M Mw : Type} {HQ : Queue Q}.

(** [type Option]: a function on a pointer to the server that returns
    an error; here, the server after the call and the error. *)
Definition Option : Type := Server Q M Mw → Server Q M Mw * option error.

Definition WithQueue (q' : option Q) : Option := λ s,
  match q' with
  | None => (s, Some (New "queue cannot be nil"))
  | Some _ =>
      ({| router := router s; q := q'; qFileCache := qFileCache s;
          qFileEntries := qFileEntries s; defaultLimit := defaultLimit s;
          dirs := dirs s; metrics := metrics s; isClosed := isClosed s;
          middlewares := middlewares s |}, None)
  end.

Definition WithDirs (dirs' : list string) : Option := λ s,
  if bool_decide (length dirs' = 0%nat)
  then (s, Some (New "at least one directory must be given"))
  else ({| router := router s; q := q s; qFileCache := qFileCache s;
           qFileEntries := qFileEntries s; defaultLimit := defaultLimit s;
           dirs := dirs'; metrics := metrics s; isClosed := isClosed s;
           middlewares := middlewares s |}, None).

Definition WithMetrics (metrics' : option M) : Option := λ s,
  match metrics' with
  | None => (s, Some (New "metrics cannot be nil"))
  | Some _ =>
      ({| router := router s; q := q s; qFileCache := qFileCache s;
          qFileEntries := qFileEntries s; defaultLimit := defaultLimit s;
          dirs := dirs s; metrics := metrics'; isClosed := isClosed s;
          middlewares := middlewares s |}, None)
  end.

Definition WithDefaultConsumeLimit (n : Z) : Option := λ s,
  let n := if bool_decide (n ≤ 0) then -1 else n in
  ({| router := router s; q := q s; qFileCache := qFileCache s;
      qFileEntries := qFileEntries s; defaultLimit := n;
      dirs := dirs s; metrics := metrics s; isClosed := isClosed s;
      middlewares := middlewares s |}, None).

Definition WithMiddleware (middleware : list Mw) : Option := λ s,
  ({| router := router s; q := q s; qFileCache := qFileCache s;
      qFileEntries := qFileEntries s; defaultLimit := defaultLimit s;
      dirs := dirs s; metrics := metrics s; isClosed := isClosed s;
      middlewares := middlewares s ++ middleware |}, None).

Definition WithFileCaching (cache : bool) : Option := λ s,
  ({| router := router s; q := q s; qFileCache := cache;
      qFileEntries := qFileEntries s; defaultLimit := defaultLimit s;
      dirs := dirs s; metrics := metrics s; isClosed := isClosed s;
      middlewares := middlewares s |}, None).

Definition WithFileEntries (entries : Z) : Option := λ s,
  if bool_decide (entries < 0)
  then (s, Some (New "invalid FileEntries, value must not be negative"))
  else ({| router := router s; q := q s; qFileCache := qFileCache s;
           qFileEntries := entries; defaultLimit := defaultLimit s;
           dirs := dirs s; metrics := metrics s; isClosed := isClosed s;
           middlewares := middlewares s |}, None).

(** The server that [NewServer] starts from; [noOpMetrics] is the value
    [noOpMetrics{}]. *)
Definition initial (noOpMetrics : M) : Server Q M Mw :=
  {| router := {| used := []; raw := None; routes := [] |};
     q := None; qFileCache := true; qFileEntries := 5000; defaultLimit := -1;
     dirs := [".haraqa"]; metrics := Some noOpMetrics; isClosed := false;
     middlewares := [] |}.

(** The loop of [NewServer] over the options. *)
Fixpoint applyOptions (options : list Option) (s : Server Q M Mw)
    : Server Q M Mw + error :=
  match options with
  | [] => inl s
  | option :: rest =>
      let '(s', err) := option s in
      match err with
      | Some e => inr (Wrap e "invalid option")
      | None => applyOptions rest s'
      end
  end.

Definition topicRoutes : list (string * string * string) :=
  [("", "GET", "HandleGetAllTopics");
   ("/{topic:.*}", "PUT", "HandleCreateTopic");
   ("/{topic:.*}", "PATCH", "HandleModifyTopic");
   ("/{topic:.*}", "DELETE", "HandleDeleteTopic");
   ("/{topic:.*}", "POST", "HandleProduce");
   ("/{topic:.*}", "GET", "HandleConsume");
   ("/{topic:.*}", "OPTIONS", "HandleOptions")].

(** [NewServer(options...)].  [filequeue_New] is [filequeue.New], which
    is not among the sources. *)
Definition NewServer (noOpMetrics : M)
    (filequeue_New : bool → Z → list string → Q + error)
    (options : list Option) : Server Q M Mw + error :=
  match applyOptions options (initial noOpMetrics) with
  | inr err => inr err
  | inl s =>
      let created :=
        match q s with
        | Some q' => inl q'
        | None => filequeue_New (qFileCache s) (qFileEntries s) (dirs s)
        end in
      match created with
      | inr err => inr err
      | inl q' =>
          inl {| router :=
                   {| used := if bool_decide (0 < length (middlewares s))%nat
                              then middlewares s else [];
                      raw := Some (RootDir q');
                      routes := topicRoutes |};
                 q := Some q'; qFileCache := qFileCache s;
                 qFileEntries := qFileEntries s; defaultLimit := defaultLimit s;
                 dirs := dirs s; metrics := metrics s; isClosed := isClosed s;
                 middlewares := middlewares s |}
      end
  end.

(** The method [Close] of the server: calling [Close] on a nil queue
    panics. *)
Definition Server_Close (s : Server Q M Mw) : Server Q M Mw * filequeue.outcome :=
  match q s with
  | None =>
      ({| router := router s; q := q s; qFileCache := qFileCache s;
          qFileEntries := qFileEntries s; defaultLimit := defaultLimit s;
          dirs := dirs s; metrics := metrics s; isClosed := true;
          middlewares := middlewares s |}, filequeue.Panicked)
  | Some q0 =>
      let '(q', err) := Close q0 in
      ({| router := router s; q := Some q'; qFileCache := qFileCache s;
          qFileEntries := qFileEntries s; defaultLimit := defaultLimit s;
          dirs := dirs s; metrics := metrics s; isClosed := true;
          middlewares := middlewares s |}, filequeue.Returned err)
  end.
End server.

End options.

(** ** Command server: main.go *)

Module main.

(** The flags that decide the options: [-cache], [-entries], [-limit]
    and [-prometheus]. *)
Record Flags : Type :=
  { fileCache : bool;
    fileEntries : Z;
    promEnabled : bool;
    consumeLimit : Z }.

(** The options that [main] collects; [middleware] and [metrics] are
    the results of [promMetrics()]. *)
Definition opts {Q M Mw : Type} (f : Flags) (middleware : Mw) (metrics : M)
    : list (@options.Option Q M Mw) :=
  ((if negb (fileCache f) then [options.WithFileCaching (fileCache f)] else [])
   ++ (if bool_decide (0 < fileEntries f) then [options.WithFileEntries (fileEntries f)] else [])
   ++ (if bool_decide (0 < consumeLimit f)
       then [options.WithDefaultConsumeLimit (consumeLimit f)] else [])
   ++ (if promEnabled f
       then [options.WithMiddleware [middleware]; options.WithMetrics (Some metrics)]
       else []))%list.

End main.

(** ** More test doubles *)

Module doubles.

#[global] Instance Queue_topics : topics.Queue mock.Queue :=
  {| topics.CreateTopic := λ q _, (mock.called q "CreateTopic", mock.failure q);
     topics.DeleteTopic := λ q _, (mock.called q "DeleteTopic", mock.failure q);
     topics.Produce := λ q _ _ _ _, (mock.called q "Produce", mock.failure q) |}.

#[global] Instance Queue_options : options.Queue mock.Queue :=
  {| options.RootDir := λ _, ".haraqa";
     options.Close := λ q, (mock.called q "Close", mock.failure q) |}.

(** The fields of a comma-separated list. *)
Fixpoint fields (s : string) : list string :=
  match s with
  | EmptyString => [EmptyString]
  | String c rest =>
      if Ascii.eqb c "," then EmptyString :: fields rest
      else match fields rest with
           | e :: es => String c e :: es
           | [] => [String c EmptyString]
           end
  end.

Fixpoint parseAll (l : list string) : list Z + error :=
  match l with
  | [] => inl []
  | x :: rest =>
      match strconv.ParseInt x, parseAll rest with
      | inl n, inl ns => inl (n :: ns)
      | inr e, _ => inr e
      | _, inr e => inr e
      end
  end.

(** Sizes read from the first [X-Sizes] value. *)
Definition sizes : topics.Sizes :=
  {| topics.ReadSizes := λ h,
       match h !! "X-Sizes" with
       | Some (v :: _) => parseAll (fields v)
       | _ => inr (New "invalid header: X-Sizes")
       end |}.

End doubles.

(** * Vocabulary of the statements *)

(** What one underlying writer answers to [WriteAt(p, off)]: a complete
    write reports [len(p)] bytes and no error other than [io.EOF]. *)
Definition complete (p : list byte) (res : Z * option error) : Prop :=
  res.1 = Z.of_nat (length p) ∧ (res.2 = None ∨ errors.Is res.2 EOF = true).

(** A writer after one call of [WriteAt(p, off)], and after one [Close]. *)
Definition afterWrite {W : Type} {HW : filequeue.WriteAtCloser W}
    (p : list byte) (off : Z) (w : W) : W :=
  (io.WriteAt w p off).1.

Definition afterClose {W : Type} {HW : filequeue.WriteAtCloser W} (w : W) : W :=
  (io.Close w).1.

(** A reader makes progress when a [Read] into a slice that is not empty
    yields a byte or an error. *)
Definition productive {R : Type} {HR : io.Reader R} : Prop :=
  ∀ (r : R) (k : nat), (0 < k)%nat →
    (io.Read r k).2.1 ≠ [] ∨ (io.Read r k).2.2 ≠ None.

(** A string without a separator, as every path element is. *)
Fixpoint noSep (s : string) : bool :=
  match s with
  | EmptyString => true
  | String c s' => negb (filepath.IsPathSeparator c) && noSep s'
  end.

(** An element that [Clean] copies to its output. *)
Definition plain (e : string) : Prop :=
  noSep e = true ∧ e ≠ "" ∧ e ≠ "." ∧ e ≠ "..".

(** The state of the loop of [Clean]: plain elements on top of the [..]
    elements that start the output of a path that is not rooted. *)
Definition cleaned (isRooted : bool) (st : list string * nat) : Prop :=
  ∃ names : list string,
    Forall plain names
    ∧ st.1 = (names ++ replicate st.2 "..")%list
    ∧ (isRooted = true → st.2 = 0%nat).

(** The output of [Clean] for the final state of the loop. *)
Definition rendered (isRooted : bool) (out : list string) : string :=
  if isRooted then String "/" (strings.Join (rev out) "/")
  else if decide (out = []) then "."
  else strings.Join (rev out) "/".

(** A lowered string is one that [strings.ToLower] leaves as it is. *)
Definition lowered {HU : strings.Unicode} (s : string) : Prop := strings.ToLower s = s.

(** What the statements use of [strings.ToLower]: lowering a lowered
    string changes nothing, and a separator is mapped to itself and cuts
    the string into parts that are lowered one by one. *)
Record LowerLaws {HU : strings.Unicode} : Prop :=
  { ToLower_idem : ∀ s, strings.ToLower (strings.ToLower s) = strings.ToLower s;
    ToLower_sep : ∀ a b, strings.ToLower (a +:+ String "/" b)
                         = strings.ToLower a +:+ String "/" (strings.ToLower b);
    ToLower_noSep : ∀ a, noSep a = true → noSep (strings.ToLower a) = true;
    ToLower_empty : strings.ToLower "" = "";
    ToLower_dot : strings.ToLower "." = "." }.

(** Concrete writers, readers and requests. *)
Definition abc : list byte := [x61; x62; x63].
Definition abcdef : list byte := [x61; x62; x63; x64; x65; x66].
Definition mirrors : list mock.File := [mock.newFile 8 None; mock.newFile 2 None].
Definition source (data : list byte) : mock.Source :=
  {| mock.data := data; mock.chunk := 1; mock.ending := None; mock.eager := false |}.

Definition queue (topics : option (list string)) (count : Z) : mock.Queue :=
  {| mock.topics := topics;
     mock.info := {| headers.MinOffset := 4; headers.MaxOffset := 5 |};
     mock.count := count; mock.failure := None; mock.calls := [] |}.

Definition listing (topics : option (list string)) (accept : list string)
    : server.Server mock.Queue * http.ResponseWriter :=
  server.HandleGetAllTopics (HC := mock.codec)
    (mock.newServer (queue topics 0) 10) http.NewRecorder
    (mock.request "/topics" [] [("Accept", accept)] None).

Definition patching (b : string) : server.Server mock.Queue * http.ResponseWriter :=
  server.HandleModifyTopic (HU := strings.ascii) (HC := mock.codec)
    (mock.newServer (queue None 0) 10) http.NewRecorder
    (mock.request "/topics/T1" [] [] (Some b)).

Definition consuming (count : Z) (limit : list string)
    : server.Server mock.Queue * http.ResponseWriter :=
  server.HandleConsume (HU := strings.ascii)
    (mock.newServer (queue None count) 10) http.NewRecorder
    (mock.request "/topics/t1" [("id", ["0"]); ("limit", limit)] [] None).

(** The options that the package provides, as data: [option_of] is the
    [Option] that the constructor returns. *)
Inductive setting (Q M Mw : Type) : Type :=
| Queue_ (q : option Q)
| Dirs_ (dirs : list string)
| Metrics_ (metrics : option M)
| Limit_ (n : Z)
| Middleware_ (middleware : list Mw)
| Caching_ (cache : bool)
| Entries_ (entries : Z).
Arguments Queue_ {Q M Mw} _.
Arguments Dirs_ {Q M Mw} _.
Arguments Metrics_ {Q M Mw} _.
Arguments Limit_ {Q M Mw} _.
Arguments Middleware_ {Q M Mw} _.
Arguments Caching_ {Q M Mw} _.
Arguments Entries_ {Q M Mw} _.

Definition option_of {Q M Mw : Type} (x : setting Q M Mw) : @options.Option Q M Mw :=
  match x with
  | Queue_ q => options.WithQueue q
  | Dirs_ dirs => options.WithDirs dirs
  | Metrics_ metrics => options.WithMetrics metrics
  | Limit_ n => options.WithDefaultConsumeLimit n
  | Middleware_ middleware => options.WithMiddleware middleware
  | Caching_ cache => options.WithFileCaching cache
  | Entries_ entries => options.WithFileEntries entries
  end.

(** The settings that are refused: a nil queue, no directory, nil
    metrics, a negative number of entries. *)
Definition refused {Q M Mw : Type} (x : setting Q M Mw) : Prop :=
  match x with
  | Queue_ q => q = None
  | Dirs_ dirs => dirs = []
  | Metrics_ metrics => metrics = None
  | Entries_ entries => entries < 0
  | _ => False
  end.

(** The value that a list of settings leaves in one field: that of the
    last setting for the field, else the start value [d]. *)
Definition lastOf {X A : Type} (f : X → option A) (xs : list X) (d : A) : A :=
  default d (last (omap f xs)).

Definition asQueue {Q M Mw : Type} (x : setting Q M Mw) : option Q :=
  match x with Queue_ q => q | _ => None end.
Definition asDirs {Q M Mw : Type} (x : setting Q M Mw) : option (list string) :=
  match x with Dirs_ dirs => Some dirs | _ => None end.
Definition asMetrics {Q M Mw : Type} (x : setting Q M Mw) : option M :=
  match x with Metrics_ metrics => metrics | _ => None end.
Definition asLimit {Q M Mw : Type} (x : setting Q M Mw) : option Z :=
  match x with Limit_ n => Some n | _ => None end.
Definition asMiddleware {Q M Mw : Type} (x : setting Q M Mw) : list Mw :=
  match x with Middleware_ middleware => middleware | _ => [] end.
Definition asCaching {Q M Mw : Type} (x : setting Q M Mw) : option bool :=
  match x with Caching_ cache => Some cache | _ => None end.
Definition asEntries {Q M Mw : Type} (x : setting Q M Mw) : option Z :=
  match x with Entries_ entries => Some entries | _ => None end.

(** The limit that [WithDefaultConsumeLimit(n)] stores. *)
Definition storedLimit (n : Z) : Z := if bool_decide (n ≤ 0) then -1 else n.

(** The server after a list of settings, field by field: the last
    setting of a field decides it, and the middlewares add up. *)
Definition settled {Q M Mw : Type} (xs : list (setting Q M Mw))
    (s : options.Server Q M Mw) : options.Server Q M Mw :=
  {| options.router := options.router s;
     options.q := match last (omap asQueue xs) with
                  | Some q => Some q
                  | None => options.q s
                  end;
     options.qFileCache := lastOf asCaching xs (options.qFileCache s);
     options.qFileEntries := lastOf asEntries xs (options.qFileEntries s);
     options.defaultLimit :=
       lastOf (λ x, storedLimit <$> asLimit x) xs (options.defaultLimit s);
     options.dirs := lastOf asDirs xs (options.dirs s);
     options.metrics := match last (omap asMetrics xs) with
                        | Some m => Some m
                        | None => options.metrics s
                        end;
     options.isClosed := options.isClosed s;
     options.middlewares := (options.middlewares s ++ concat (map asMiddleware xs))%list |}.

(** A request with an [X-Sizes] header and an optional body. *)
Definition admin (path : string) (b : option string) (sizes : list string) : http.Request :=
  mock.request path [] [("X-Sizes", sizes)] b.

(** A list of settings in which several are given more than once. *)
Definition given : list (setting mock.Queue nat string) :=
  [Limit_ 0; Middleware_ ["a"]; Entries_ 7; Limit_ 25; Middleware_ ["b"; "c"];
   Caching_ false].

(** The server that [NewServer] builds from [given]. *)
Definition made : options.Server mock.Queue nat string :=
  {| options.router := {| options.used := ["a"; "b"; "c"]; options.raw := Some ".haraqa";
                          options.routes := options.topicRoutes |};
     options.q := Some (queue None 0); options.qFileCache := false;
     options.qFileEntries := 7; options.defaultLimit := 25; options.dirs := [".haraqa"];
     options.metrics := Some 0%nat; options.isClosed := false;
     options.middlewares := ["a"; "b"; "c"] |}.

(** * The library functions on known inputs *)

(** The results that Go's own tests expect of [Clean] and [ParseInt]. *)
Example Clean_table :
  map filepath.Clean
    ["abc"; "abc/def"; "a/b/c"; "."; ".."; "../.."; "../../abc"; "/abc"; "/"; "";
     "abc/"; "abc/def/"; "a/b/c/"; "./"; "../"; "../../"; "/abc/";
     "abc//def//ghi"; "//abc"; "///abc"; "//abc//"; "abc//";
     "abc/./def"; "/./abc/def"; "abc/.";
     "abc/def/ghi/../jkl"; "abc/def/../ghi/../jkl"; "abc/def/.."; "abc/def/../..";
     "/abc/def/../.."; "abc/def/../../.."; "/abc/def/../../..";
     "abc/def/../../../ghi/jkl/../../../mno"; "/../abc";
     "abc/./../def"; "abc//./../def"; "abc/../../././../def"]
  = ["abc"; "abc/def"; "a/b/c"; "."; ".."; "../.."; "../../abc"; "/abc"; "/"; ".";
     "abc"; "abc/def"; "a/b/c"; "."; ".."; "../.."; "/abc";
     "abc/def/ghi"; "/abc"; "/abc"; "/abc"; "abc";
     "abc/def"; "/abc/def"; "abc";
     "abc/def/jkl"; "abc/jkl"; "abc"; ".";
     "/"; ".."; "/";
     "../../mno"; "/abc";
     "def"; "def"; "../../def"].
Proof. vm_compute. reflexivity. Qed.

Example ParseInt_table :
  map strconv.ParseInt
    [""; "0"; "-0"; "+5"; "12x"; "-"; "9223372036854775807"; "9223372036854775808";
     "-9223372036854775808"; "-9223372036854775809"; "007"; " 1"]
  = [inr ErrSyntax; inl 0; inl 0; inl 5; inr ErrSyntax; inr ErrSyntax;
     inl 9223372036854775807; inr ErrRange;
     inl (-9223372036854775808); inr ErrRange; inl 7; inr ErrSyntax].
Proof. vm_compute. reflexivity. Qed.

Example CanonicalHeaderKey_table :
  map http.CanonicalHeaderKey
    ["accept-encoding"; "HOST"; "x-sizes"; "uSER-aGENT"; "a b"; ""; "C@t"; "foo-bar_baz"]
  = ["Accept-Encoding"; "Host"; "X-Sizes"; "User-Agent"; "a b"; ""; "C@t"; "Foo-Bar_baz"].
Proof. vm_compute. reflexivity. Qed.

(** * Properties of the multi-root writer *)

Section multiwriter.
Context {W : Type} {HW : filequeue.WriteAtCloser W}.

Import filequeue.

Lemma CloseLoop_spec (mw : list W) (err : option error) :
  MultiWriteAtCloser.CloseLoop mw err
  = (map afterClose mw,
     match last (omap (λ w, (io.Close w).2) mw) with
     | Some e => Some e
     | None => err
     end).
Proof.
  revert err. induction mw as [|w rest IH]; intros err; [reflexivity|].
  cbn. unfold afterClose at 1.
  destruct (io.Close w) as [w' e] eqn:Hw. rewrite IH. cbn [fst snd].
  destruct e as [e|]; [|reflexivity].
  rewrite last_cons. destruct (last _); reflexivity.
Qed.

(** C7.  [Close] closes every underlying writer, whatever the earlier
    closes returned, and returns the last error that is not nil among
    the results, or nil if there is none. *)
Theorem Close_closes_all_returns_last_error (mw : list W) :
  MultiWriteAtCloser.Close mw
  = (map afterClose mw, last (omap (λ w, (io.Close w).2) mw)).
Proof.
  unfold MultiWriteAtCloser.Close. rewrite CloseLoop_spec.
  destruct (last _); reflexivity.
Qed.

Lemma complete_dec (p : list byte) (res : Z * option error) :
  complete p res
  ↔ (bool_decide (res.2 ≠ None) && negb (errors.Is res.2 EOF) = false
     ∧ bool_decide (res.1 ≠ Z.of_nat (length p)) = false).
Proof.
  unfold complete. destruct res as [n e]; cbn [fst snd].
  rewrite andb_false_iff, negb_false_iff, !bool_decide_eq_false.
  destruct (decide (n = Z.of_nat (length p))), e; intuition congruence.
Qed.

Lemma WriteAt_cons (w : W) (rest : list W) (p : list byte) (off : Z) :
  MultiWriteAtCloser.WriteAt (w :: rest) p off
  = let res := (io.WriteAt w p off).2 in
    if bool_decide (res.2 ≠ None) && negb (errors.Is res.2 EOF)
    then (afterWrite p off w :: rest, res.2)
    else if bool_decide (res.1 ≠ Z.of_nat (length p))
    then (afterWrite p off w :: rest, Some (New "incomplete write"))
    else (afterWrite p off w :: (MultiWriteAtCloser.WriteAt rest p off).1,
          (MultiWriteAtCloser.WriteAt rest p off).2).
Proof.
  cbn [MultiWriteAtCloser.WriteAt]. unfold afterWrite.
  destruct (io.WriteAt w p off) as [w' [n err]]. cbn [fst snd].
  destruct (MultiWriteAtCloser.WriteAt rest p off). reflexivity.
Qed.

Lemma WriteAt_ok_iff (mw : list W) (p : list byte) (off : Z) :
  (MultiWriteAtCloser.WriteAt mw p off).2 = None
  ↔ Forall (λ w, complete p (io.WriteAt w p off).2) mw.
Proof.
  induction mw as [|w rest IH]; [by split|].
  rewrite WriteAt_cons, Forall_cons, complete_dec, <- IH. cbn zeta.
  destruct (io.WriteAt w p off).2 as [n err]. cbn [fst snd].
  destruct (bool_decide (err ≠ None) && negb (errors.Is err EOF)) eqn:Herr.
  - cbn [snd]. split; [|intros [[? _] _]; discriminate].
    intros Hnone. rewrite Hnone in Herr.
    rewrite andb_true_iff, bool_decide_eq_true in Herr. by destruct Herr.
  - destruct (bool_decide (n ≠ _)); cbn [snd].
    + split; [discriminate|]. intros [[_ ?] _]; discriminate.
    + tauto.
Qed.

Lemma WriteAt_ok_states (mw : list W) (p : list byte) (off : Z) :
  (MultiWriteAtCloser.WriteAt mw p off).2 = None →
  (MultiWriteAtCloser.WriteAt mw p off).1 = map (afterWrite p off) mw.
Proof.
  induction mw as [|w rest IH]; [done|].
  rewrite WriteAt_cons. cbn zeta.
  destruct (io.WriteAt w p off).2 as [n err]. cbn [fst snd].
  destruct (bool_decide (err ≠ None) && negb (errors.Is err EOF)) eqn:Herr.
  - cbn [snd]. intros Hnone. rewrite Hnone in Herr.
    rewrite andb_true_iff, bool_decide_eq_true in Herr. by destruct Herr.
  - destruct (bool_decide (n ≠ _)); cbn [fst snd]; [discriminate|].
    intros Hrest. cbn [map]. by rewrite IH.
Qed.

(** Whatever the result, the writers that were called form a prefix of
    the slice, each called once with [(p, off)]; the others are
    untouched. *)
Lemma WriteAt_states (mw : list W) (p : list byte) (off : Z) :
  ∃ k : nat, (0 < k ∨ mw = [])%nat ∧ (k ≤ length mw)%nat ∧
    (MultiWriteAtCloser.WriteAt mw p off).1
    = (map (afterWrite p off) (take k mw) ++ drop k mw)%list.
Proof.
  induction mw as [|w rest IH]; [exists 0%nat; auto|].
  rewrite WriteAt_cons. cbn zeta.
  destruct (bool_decide _ && negb _).
  { exists 1%nat. cbn. split; [lia|]. split; [lia|]. by rewrite drop_0. }
  destruct (bool_decide (_ ≠ _)).
  { exists 1%nat. cbn. split; [lia|]. split; [lia|]. by rewrite drop_0. }
  destruct IH as (k & _ & Hk & ->). exists (S k). cbn. split; [lia|]. split; [lia|done].
Qed.

(** C1.  [WriteAt(p, off)] returns nil exactly when every underlying
    writer wrote all [len(p)] bytes, and then every writer received the
    write of [p] at [off]; a writer that answers with an error other
    than [io.EOF], or with a count below [len(p)], makes it return an
    error. *)
Theorem WriteAt_duplicates_and_succeeds_iff_all_complete
    (mw : list W) (p : list byte) (off : Z) :
  ((MultiWriteAtCloser.WriteAt mw p off).2 = None
   ↔ Forall (λ w, complete p (io.WriteAt w p off).2) mw)
  ∧ ((MultiWriteAtCloser.WriteAt mw p off).2 = None →
     (MultiWriteAtCloser.WriteAt mw p off).1 = map (afterWrite p off) mw)
  ∧ (∀ w, w ∈ mw →
       let '(n, err) := (io.WriteAt w p off).2 in
       (err ≠ None ∧ errors.Is err EOF = false) ∨ n < Z.of_nat (length p) →
       (MultiWriteAtCloser.WriteAt mw p off).2 ≠ None).
Proof.
  split; [apply WriteAt_ok_iff|]. split; [apply WriteAt_ok_states|].
  intros w Hw. destruct (io.WriteAt w p off) as [w' [n err]] eqn:Hres.
  intros Hbad Hnone. apply WriteAt_ok_iff in Hnone.
  rewrite Forall_forall in Hnone. specialize (Hnone w Hw).
  rewrite Hres in Hnone. destruct Hnone as [Hn He]. cbn [fst snd] in *.
  destruct Hbad as [[Hne Heof]|Hlt]; [|lia].
  destruct He as [->|He]; [done|congruence].
Qed.

End multiwriter.

(** * Properties of [io.ReadAtLeast] and of [CopyNAt] *)

Section reading.
Context {R : Type} {HR : io.Reader R}.

Lemma fill_length (buf : list byte) (n : nat) (bs : list byte) :
  (n ≤ length buf)%nat → length (io.fill buf n bs) = length buf.
Proof.
  intros Hn. unfold io.fill.
  rewrite !length_app, !length_take, length_drop. lia.
Qed.

Lemma readLoop_inv (fuel : nat) :
  ∀ (r : R) (buf : list byte) (n min : nat) (err : option error) r' buf' n' err',
    io.readLoop fuel r buf n min err = Some (r', buf', n', err') →
    (n ≤ length buf)%nat →
    length buf' = length buf ∧ (n ≤ n' ≤ length buf)%nat
    ∧ ((n' < min)%nat → err' ≠ None).
Proof.
  induction fuel as [|fuel IH]; intros r buf n min err r' buf' n' err' Hrun Hn;
    cbn [io.readLoop] in Hrun.
  - destruct (decide _) as [Hgo|Hstop]; [discriminate|].
    injection Hrun as <- <- <- <-. repeat split; try lia.
    intros Hlt Herr. apply Hstop. by split.
  - destruct (decide _) as [Hgo|Hstop].
    + destruct (io.Read r (length buf - n)) as [r1 [bs e1]].
      apply IH in Hrun.
      * rewrite fill_length in Hrun by done. rewrite length_take in Hrun.
        destruct Hrun as (Hlen & Hle & Herr). split; [done|]. split; [lia|done].
      * rewrite fill_length by done. rewrite length_take. lia.
    + injection Hrun as <- <- <- <-. repeat split; try lia.
      intros Hlt Herr. apply Hstop. by split.
Qed.

Lemma readLoop_total (Hprod : productive) (fuel : nat) :
  ∀ (r : R) (buf : list byte) (n min : nat) (err : option error),
    (min ≤ length buf)%nat →
    (min - n ≤ fuel)%nat ∨ err ≠ None →
    is_Some (io.readLoop fuel r buf n min err).
Proof.
  induction fuel as [|fuel IH]; intros r buf n min err Hmin Hfuel;
    cbn [io.readLoop]; destruct (decide _) as [[Hlt Herr]|Hstop]; eauto.
  - exfalso. destruct Hfuel; [lia|done].
  - destruct Hfuel as [Hfuel|?]; [|done].
    destruct (Hprod r (length buf - n)%nat) as [Hbs|He]; [lia|..];
      destruct (io.Read r (length buf - n)) as [r1 [bs e1]]; cbn [fst snd] in *.
    + apply IH; [rewrite fill_length; lia|]. left.
      rewrite length_take. destruct bs; [done|]. cbn [length]. lia.
    + apply IH; [rewrite fill_length; lia|]. by right.
Qed.

(** [ReadAtLeast] into a buffer that it must fill: the buffer keeps
    its length, at most that many bytes are read, and the error is nil
    exactly when the buffer was filled. *)
Lemma ReadAtLeast_full (fuel : nat) (r : R) (buf : list byte) r' buf' n err :
  io.ReadAtLeast fuel r buf (length buf) = Some (r', buf', n, err) →
  length buf' = length buf ∧ (n ≤ length buf)%nat ∧ (err = None ↔ n = length buf).
Proof.
  unfold io.ReadAtLeast. destruct (decide _) as [?|_]; [lia|].
  destruct (io.readLoop _ _ _ _ _ _) as [[[[r1 buf1] n1] err1]|] eqn:Hloop; [|discriminate].
  apply readLoop_inv in Hloop; [|lia]. destruct Hloop as (Hlen & Hn1 & Herr1).
  intros [= <- <- <- <-]. split; [done|]. split; [lia|].
  destruct (decide (length buf ≤ n1)%nat) as [Hge|Hlt]; [split; [lia|done]|].
  split; [|lia]. destruct (decide _); [discriminate|].
  intros ->. exfalso. apply Herr1; [lia|done].
Qed.

Lemma ReadAtLeast_total (Hprod : productive) (fuel : nat) (r : R) (buf : list byte) :
  (length buf ≤ fuel)%nat → is_Some (io.ReadAtLeast fuel r buf (length buf)).
Proof.
  intros Hfuel. unfold io.ReadAtLeast. destruct (decide _) as [?|_]; [lia|].
  destruct (readLoop_total Hprod fuel r buf 0 (length buf) None) as [[[[r1 buf1] n1] err1] ->];
    [lia|left; lia|]. eauto.
Qed.

End reading.

Section copying.
Context {W : Type} {HW : filequeue.WriteAtCloser W} {R : Type} {HR : io.Reader R}.

Import filequeue.

Lemma getBuf_length (pooled : list byte) (N : Z) :
  0 ≤ N → ∃ buf, MultiWriteAtCloser.getBuf pooled N = Some buf ∧ length buf = Z.to_nat N.
Proof.
  intros HN. unfold MultiWriteAtCloser.getBuf.
  destruct (decide (N > _)) as [Hbig|Hsmall].
  - eexists; split; [done|]. by rewrite length_replicate.
  - destruct (decide (N < 0)); [lia|].
    eexists; split; [done|]. rewrite length_take. lia.
Qed.

(** Whenever [CopyNAt] ends, either nothing was written and it
    panicked or returned the wrapped error of the read, or the read
    filled the buffer and the buffer was handed to [WriteAt]. *)
Lemma CopyNAt_inv (fuel : nat) (pooled : list byte) (mw : list W) (r : R) (N off : Z)
    r' mw' res :
  MultiWriteAtCloser.CopyNAt fuel pooled mw r N off = Some (r', mw', res) →
  (mw' = mw ∧ (res = Panicked ∨ ∃ e, res = Returned (Some (Wrap e "unable to read input"))))
  ∨ (∃ buf, length buf = Z.to_nat N
       ∧ mw' = (MultiWriteAtCloser.WriteAt mw buf off).1
       ∧ res = Returned (errors.Wrap (MultiWriteAtCloser.WriteAt mw buf off).2
                            "unable to copy to log file")).
Proof.
  unfold MultiWriteAtCloser.CopyNAt.
  destruct (MultiWriteAtCloser.getBuf pooled N) as [buf|] eqn:Hbuf.
  - destruct (io.ReadAtLeast _ _ _ _) as [[[[r1 buf1] n1] [e|]]|] eqn:Hread; [| |discriminate].
    + intros [= <- <- <-]. left. eauto.
    + apply ReadAtLeast_full in Hread. destruct Hread as (Hlen & _ & _).
      destruct (MultiWriteAtCloser.WriteAt mw buf1 off) as [m e] eqn:Hw.
      intros [= <- <- <-]. right. exists buf1. rewrite Hw. split; [|done].
      rewrite Hlen. unfold MultiWriteAtCloser.getBuf in Hbuf.
      destruct (decide (N > _)); [injection Hbuf as <-; by rewrite length_replicate|].
      destruct (decide (N < 0)); [discriminate|].
      injection Hbuf as <-. rewrite length_take. lia.
  - intros [= <- <- <-]. left. eauto.
Qed.

(** C9.  Every call [CopyNAt(r, N, off)].  With a negative [N] it
    panics before it reads or writes.  With [N] not negative and a
    reader that makes progress, it ends.  Whenever it ends, it has read
    into a buffer of [N] bytes; [n] is the number of bytes the reader
    gave, and the read fails exactly when [n] is below [N] (the reader
    ended or failed before the last byte).  Then [CopyNAt] returns the
    wrapped error of the read and no writer is touched; only when all
    [N] bytes were read is the buffer handed to [WriteAt] at [off],
    whether or not the reader reported an error with the last byte. *)
Theorem CopyNAt_writes_only_after_full_read
    (fuel : nat) (pooled : list byte) (mw : list W) (r : R) (N off : Z) :
  (N < 0 → MultiWriteAtCloser.CopyNAt fuel pooled mw r N off = Some (r, mw, Panicked))
  ∧ (0 ≤ N → productive → (Z.to_nat N ≤ fuel)%nat →
     is_Some (MultiWriteAtCloser.CopyNAt fuel pooled mw r N off))
  ∧ (0 ≤ N → ∀ r' mw' res,
       MultiWriteAtCloser.CopyNAt fuel pooled mw r N off = Some (r', mw', res) →
       ∃ buf0 buf n err,
         MultiWriteAtCloser.getBuf pooled N = Some buf0
         ∧ io.ReadAtLeast fuel r buf0 (Z.to_nat N) = Some (r', buf, n, err)
         ∧ length buf = Z.to_nat N ∧ (n ≤ Z.to_nat N)%nat
         ∧ (err = None ↔ n = Z.to_nat N)
         ∧ ((n < Z.to_nat N)%nat →
              ∃ e, err = Some e ∧ mw' = mw
                ∧ res = Returned (Some (Wrap e "unable to read input")))
         ∧ (n = Z.to_nat N →
              err = None
              ∧ mw' = (MultiWriteAtCloser.WriteAt mw buf off).1
              ∧ res = Returned (errors.Wrap (MultiWriteAtCloser.WriteAt mw buf off).2
                                  "unable to copy to log file"))).
Proof.
  split; [|split].
  - intros HN. unfold MultiWriteAtCloser.CopyNAt, MultiWriteAtCloser.getBuf.
    rewrite (decide_False (P := N > Z.of_nat (length pooled))) by lia.
    by rewrite (decide_True (P := N < 0)) by lia.
  - intros HN Hprod Hfuel.
    destruct (getBuf_length pooled N HN) as (buf0 & Hbuf & Hlen0).
    destruct (ReadAtLeast_total Hprod fuel r buf0) as [[[[r' buf] n] err] Hread]; [lia|].
    unfold MultiWriteAtCloser.CopyNAt. rewrite Hbuf, Hread.
    destruct err; [eauto|]. destruct (MultiWriteAtCloser.WriteAt mw buf off); eauto.
  - intros HN r' mw' res.
    destruct (getBuf_length pooled N HN) as (buf0 & Hbuf & Hlen0).
    unfold MultiWriteAtCloser.CopyNAt. rewrite Hbuf, Hlen0.
    destruct (io.ReadAtLeast fuel r buf0 (Z.to_nat N))
      as [[[[r1 buf] n] err]|] eqn:Hread; [|discriminate].
    rewrite <- Hlen0 in Hread.
    pose proof (ReadAtLeast_full _ _ _ _ _ _ _ Hread) as (Hlen & Hn & Herr).
    rewrite Hlen0 in *. intros Hrun. exists buf0, buf, n, err.
    destruct err as [e|].
    + injection Hrun as <- <- <-. do 5 (split; [done|]). split.
      * intros _. by exists e.
      * intros Hfull. apply Herr in Hfull. discriminate.
    + destruct (MultiWriteAtCloser.WriteAt mw buf off) as [m e] eqn:Hw.
      injection Hrun as <- <- <-. do 5 (split; [done|]). split.
      * intros Hlt. destruct Herr as [Herr _]. specialize (Herr eq_refl). lia.
      * intros _. done.
Qed.

End copying.

(** * Properties of [filepath.Clean] *)

Section cleaning.
Import filepath.

Lemma IsPathSeparator_true (c : ascii) : IsPathSeparator c = true ↔ c = "/"%char.
Proof. unfold IsPathSeparator. apply Ascii.eqb_eq. Qed.

Lemma elements_not_nil (s : string) : elements s ≠ [].
Proof.
  destruct s as [|c s]; cbn; [done|].
  destruct (IsPathSeparator c); [done|]. by destruct (elements s).
Qed.

Lemma elements_noSep (s : string) : Forall (λ e, noSep e = true) (elements s).
Proof.
  induction s as [|c s IH]; cbn; [by repeat constructor|].
  destruct (IsPathSeparator c) eqn:Hc; [by constructor|].
  destruct (elements s) as [|e es]; [repeat constructor; cbn; by rewrite Hc|].
  inversion IH; subst. constructor; [|done]. cbn. by rewrite Hc.
Qed.

Lemma append_String (c : ascii) (s t : string) :
  String c s +:+ t = String c (s +:+ t).
Proof. reflexivity. Qed.

Lemma Join_cons2 (e e' : string) (es : list string) (sep : string) :
  strings.Join (e :: e' :: es) sep = e +:+ sep +:+ strings.Join (e' :: es) sep.
Proof. reflexivity. Qed.

Lemma Join_elements (s : string) : strings.Join (elements s) "/" = s.
Proof.
  induction s as [|c s IH]; [reflexivity|]. cbn [elements].
  destruct (IsPathSeparator c) eqn:Hc.
  - apply IsPathSeparator_true in Hc as ->.
    pose proof (elements_not_nil s) as Hne.
    destruct (elements s) as [|e es]; [done|]. rewrite Join_cons2, IH. reflexivity.
  - pose proof (elements_not_nil s) as Hne.
    destruct (elements s) as [|e es]; [done|].
    destruct es as [|e' es].
    + cbn in *. by rewrite IH.
    + rewrite Join_cons2 in *. by rewrite <- IH.
Qed.

Lemma elements_app_sep (e t : string) :
  noSep e = true → elements (e +:+ String "/" t) = e :: elements t.
Proof.
  induction e as [|c e IH]; intros He; [reflexivity|].
  cbn [noSep] in He. apply andb_true_iff in He as [Hc He]. apply negb_true_iff in Hc.
  rewrite append_String. cbn [elements]. rewrite Hc, IH by done. reflexivity.
Qed.

Lemma elements_single (e : string) : noSep e = true → elements e = [e].
Proof.
  induction e as [|c e IH]; intros He; [reflexivity|].
  cbn [noSep] in He. apply andb_true_iff in He as [Hc He]. apply negb_true_iff in Hc.
  cbn [String.append elements]. rewrite Hc, IH by done. reflexivity.
Qed.

Lemma elements_Join (es : list string) :
  es ≠ [] → Forall (λ e, noSep e = true) es → elements (strings.Join es "/") = es.
Proof.
  induction es as [|e es IH]; [done|]. intros _ Hall.
  inversion Hall as [|? ? He Hes]; subst.
  destruct es as [|e' es]; [by apply elements_single|].
  rewrite Join_cons2.
  change ("/" +:+ strings.Join (e' :: es) "/") with (String "/" (strings.Join (e' :: es) "/")).
  rewrite elements_app_sep by done.
  by rewrite IH.
Qed.

Lemma step_cleaned (isRooted : bool) (st : list string * nat) (e : string) :
  noSep e = true → cleaned isRooted st → cleaned isRooted (step isRooted st e).
Proof.
  intros He (names & Hnames & Hout & Hroot). destruct st as [out dotdot].
  cbn [fst snd] in *. subst out. unfold step.
  destruct (decide (e = "")) as [?|Hne]; [by exists names|].
  destruct (decide (e = ".")) as [?|Hnd]; [by exists names|].
  destruct (decide (e = "..")) as [->|Hndd].
  - destruct (decide (dotdot < _)%nat) as [Hlt|Hge].
    + rewrite length_app, length_replicate in Hlt.
      destruct names as [|x names]; [cbn in Hlt; lia|].
      exists names. inversion Hnames; subst. done.
    + rewrite length_app, length_replicate in Hge.
      destruct names as [|x names]; [|cbn in Hge; lia].
      destruct isRooted; cbn [negb]; [by exists []|].
      exists []. split; [constructor|]. cbn. split; [|done].
      by rewrite length_replicate.
  - exists (e :: names). split; [|by split]. constructor; [|done]. by repeat split.
Qed.

Lemma fold_cleaned (isRooted : bool) (es : list string) (st : list string * nat) :
  Forall (λ e, noSep e = true) es → cleaned isRooted st →
  cleaned isRooted (fold_left (step isRooted) es st).
Proof.
  revert st. induction es as [|e es IH]; intros st Hes Hst; [done|].
  inversion Hes; subst. cbn. apply IH; [done|]. by apply step_cleaned.
Qed.

(** Running the loop over its own output rebuilds the output. *)
Lemma fold_dotdots (k : nat) (out : list string) :
  out = replicate (length out) ".." →
  fold_left (step false) (replicate k "..") (out, length out)
  = ((replicate k ".." ++ out)%list, (k + length out)%nat).
Proof.
  revert out. induction k as [|k IH]; intros out Hout; [done|].
  cbn [replicate fold_left]. unfold step at 2. cbn [fst snd].
  repeat (case_decide; try done); try lia.
  cbn [negb]. specialize (IH (".." :: out)). cbn [length] in IH. rewrite IH.
  - f_equal; [|lia]. change (".." :: out) with (replicate 1 ".." ++ out)%list.
    rewrite app_assoc, <- replicate_add. by rewrite Nat.add_1_r.
  - cbn. by f_equal.
Qed.

Lemma fold_plain (isRooted : bool) (names out : list string) (dotdot : nat) :
  Forall plain names →
  fold_left (step isRooted) names (out, dotdot) = ((rev names ++ out)%list, dotdot).
Proof.
  revert out. induction names as [|e names IH]; intros out Hnames; [done|].
  inversion Hnames as [|? ? (_ & ? & ? & ?) ?]; subst. cbn [fold_left].
  unfold step at 2. repeat (case_decide; try done).
  rewrite IH by done. cbn [rev]. by rewrite <- app_assoc.
Qed.

Lemma Clean_unfold (path : string) :
  path ≠ "" →
  Clean path
  = rendered (rooted path) (fold_left (step (rooted path)) (elements path) ([], 0%nat)).1.
Proof.
  intros Hne. unfold Clean, rendered. destruct (decide (path = "")); [done|].
  by destruct (fold_left _ _ _).
Qed.

Lemma plain_noSep (names : list string) :
  Forall plain names → Forall (λ e, noSep e = true) names.
Proof. intros Hall. eapply Forall_impl; [exact Hall|]. by intros e (? & _). Qed.

Lemma Join_head (e : string) (es : list string) :
  e ≠ "" → noSep e = true →
  ∃ c t, strings.Join (e :: es) "/" = String c t ∧ IsPathSeparator c = false.
Proof.
  intros Hne He. destruct e as [|c e]; [done|].
  cbn [noSep] in He. apply andb_true_iff in He as [Hc _]. apply negb_true_iff in Hc.
  destruct es as [|e' es]; [by exists c, e|].
  rewrite Join_cons2, append_String. eauto.
Qed.

Lemma Clean_rendered (isRooted : bool) (names : list string) (k : nat) :
  Forall plain names → (isRooted = true → k = 0%nat) →
  Clean (rendered isRooted (names ++ replicate k "..")) = rendered isRooted (names ++ replicate k "..").
Proof.
  intros Hnames Hroot. destruct isRooted.
  - rewrite (Hroot eq_refl). cbn [replicate]. rewrite app_nil_r.
    unfold rendered at 1. rewrite Clean_unfold by done.
    cbn [rooted elements]. change (IsPathSeparator "/") with true. cbn match.
    f_equal. cbn [fold_left]. unfold step at 2. rewrite decide_True by done.
    destruct names as [|x names]; [reflexivity|].
    rewrite elements_Join.
    + by rewrite fold_plain, rev_involutive, app_nil_r by by apply Forall_rev.
    + intros Hnil. apply (f_equal length) in Hnil. rewrite length_rev in Hnil. done.
    + apply Forall_rev. by apply plain_noSep.
  - destruct (decide ((names ++ replicate k "..")%list = [])) as [Hnil|Hnil].
    { rewrite Hnil. reflexivity. }
    unfold rendered at 1. rewrite decide_False by done.
    assert (Hrev : rev (names ++ replicate k "..") = (replicate k ".." ++ rev names)%list).
    { rewrite rev_app_distr. f_equal. clear. induction k as [|k IH]; [done|].
      cbn [replicate rev]. rewrite IH. clear.
      induction k as [|k IH]; [done|]. cbn. by rewrite IH. }
    rewrite Hrev.
    assert (Hall : Forall (λ e, noSep e = true) (replicate k ".." ++ rev names)).
    { apply Forall_app. split; [by apply Forall_replicate|].
      apply Forall_rev. by apply plain_noSep. }
    assert (Hhead : ∃ e es, (replicate k ".." ++ rev names)%list = e :: es
                            ∧ e ≠ "" ∧ noSep e = true).
    { destruct k as [|k]; [|by exists "..", (replicate k ".." ++ rev names)%list].
      cbn. destruct (rev names) as [|e es] eqn:Hr.
      - exfalso. apply Hnil. apply (f_equal (@rev _)) in Hr.
        rewrite rev_involutive in Hr. by rewrite Hr.
      - exists e, es. split; [done|].
        assert (He : plain e).
        { apply Forall_rev in Hnames. rewrite Hr in Hnames. by inversion Hnames. }
        destruct He as (? & ? & _). done. }
    destruct Hhead as (e & es & Heq & Hne & He).
    destruct (Join_head e es Hne He) as (c & t & Hjoin & Hc).
    rewrite Clean_unfold by (rewrite Heq, Hjoin; done).
    assert (Hrooted : rooted (strings.Join (replicate k ".." ++ rev names) "/") = false).
    { rewrite Heq, Hjoin. exact Hc. }
    rewrite Hrooted, elements_Join; [|by rewrite Heq|exact Hall].
    rewrite fold_left_app.
    pose proof (fold_dotdots k [] eq_refl) as Hdots. cbn [length] in Hdots.
    rewrite Hdots, app_nil_r.
    rewrite fold_plain by by apply Forall_rev. cbn [fst].
    rewrite rev_involutive. unfold rendered.
    rewrite decide_False by done. by rewrite Hrev.
Qed.

(** [Clean] leaves its own results as they are. *)
Lemma Clean_idempotent (path : string) : Clean (Clean path) = Clean path.
Proof.
  destruct (decide (path = "")) as [->|Hne]; [reflexivity|].
  rewrite (Clean_unfold path) by done.
  destruct (fold_cleaned (rooted path) (elements path) ([], 0%nat))
    as (names & Hnames & Hout & Hroot).
  - apply elements_noSep.
  - exists []. by repeat split.
  - rewrite Hout. apply Clean_rendered; [done|]. exact Hroot.
Qed.

End cleaning.

(** * Topic names *)

Section ascii_laws.

Lemma lower_idem (c : ascii) : strings.lower (strings.lower c) = strings.lower c.
Proof. destruct c as [[] [] [] [] [] [] [] []]; reflexivity. Qed.

Lemma lower_sep (c : ascii) :
  filepath.IsPathSeparator (strings.lower c) = filepath.IsPathSeparator c.
Proof. destruct c as [[] [] [] [] [] [] [] []]; reflexivity. Qed.

Lemma mapBytes_app (f : ascii → ascii) (a b : string) :
  strings.mapBytes f (a +:+ b) = strings.mapBytes f a +:+ strings.mapBytes f b.
Proof.
  induction a as [|c a IH]; [done|].
  rewrite append_String. cbn [strings.mapBytes]. by rewrite IH.
Qed.

Lemma ascii_LowerLaws : @LowerLaws strings.ascii.
Proof.
  split; cbn [strings.ToLower strings.ascii].
  - induction s as [|c s IH]; [done|]. cbn. by rewrite lower_idem, IH.
  - intros a b. by rewrite mapBytes_app.
  - induction a as [|c a IH]; [done|]. cbn [noSep strings.mapBytes].
    rewrite lower_sep. intros [-> Ha]%andb_true_iff. by rewrite IH.
  - reflexivity.
  - reflexivity.
Qed.

End ascii_laws.

Section topics.
Context {HU : strings.Unicode} (Hlaws : LowerLaws).

Import filepath.

Lemma ToLower_Join (es : list string) :
  es ≠ [] →
  strings.ToLower (strings.Join es "/") = strings.Join (map strings.ToLower es) "/".
Proof.
  induction es as [|e es IH]; [done|]. intros _.
  destruct es as [|e' es]; [done|].
  cbn [map]. rewrite !Join_cons2.
  change ("/" +:+ ?t) with (String "/" t).
  rewrite (ToLower_sep Hlaws), IH by done. reflexivity.
Qed.

Lemma lowered_elements (s : string) : lowered s → Forall lowered (elements s).
Proof.
  intros Hs. pose proof (ToLower_Join (elements s) (elements_not_nil s)) as Hjoin.
  rewrite Join_elements, Hs in Hjoin.
  apply (f_equal elements) in Hjoin.
  rewrite elements_Join in Hjoin.
  - rewrite <- (Join_elements s), elements_Join in Hjoin at 1;
      [|apply elements_not_nil|apply elements_noSep].
    clear Hs. induction (elements s) as [|e es IH]; [constructor|].
    cbn [map] in Hjoin. injection Hjoin as He Hes. constructor; [done|]. by apply IH.
  - intros Hnil. apply (elements_not_nil s). by destruct (elements s).
  - apply Forall_map. eapply Forall_impl; [apply elements_noSep|].
    intros e He. by apply (ToLower_noSep Hlaws).
Qed.

Lemma step_lowered (isRooted : bool) (st : list string * nat) (e : string) :
  lowered e → Forall lowered st.1 → Forall lowered (step isRooted st e).1.
Proof.
  intros He Hst. destruct st as [out dotdot]. unfold step. cbn [fst] in Hst.
  repeat case_decide; subst; cbn [fst]; try done.
  - destruct out; [done|]. by inversion Hst.
  - destruct isRooted; cbn [negb fst]; [done|]. by constructor.
  - by constructor.
Qed.

Lemma fold_lowered (isRooted : bool) (es : list string) (st : list string * nat) :
  Forall lowered es → Forall lowered st.1 →
  Forall lowered (fold_left (step isRooted) es st).1.
Proof.
  revert st. induction es as [|e es IH]; intros st Hes Hst; [done|].
  inversion Hes; subst. cbn [fold_left]. apply IH; [done|]. by apply step_lowered.
Qed.

Lemma lowered_Join (es : list string) : Forall lowered es → lowered (strings.Join es "/").
Proof.
  intros Hes. destruct es as [|e es]; [apply (ToLower_empty Hlaws)|].
  unfold lowered. rewrite ToLower_Join by done. f_equal.
  induction Hes as [|x l Hx Hl IH]; [done|]. cbn [map]. by rewrite Hx, IH.
Qed.

Lemma lowered_rendered (isRooted : bool) (out : list string) :
  Forall lowered out → lowered (rendered isRooted out).
Proof.
  intros Hout. unfold rendered. destruct isRooted.
  - unfold lowered. change (String "/" ?t) with ("" +:+ String "/" t).
    rewrite (ToLower_sep Hlaws), (ToLower_empty Hlaws).
    f_equal. f_equal. apply lowered_Join. by apply Forall_rev.
  - case_decide; [apply (ToLower_dot Hlaws)|]. apply lowered_Join. by apply Forall_rev.
Qed.

(** [Clean] keeps a lowered path lowered. *)
Lemma lowered_Clean (path : string) : lowered path → lowered (Clean path).
Proof.
  intros Hpath. destruct (decide (path = "")) as [->|Hne]; [apply (ToLower_dot Hlaws)|].
  rewrite Clean_unfold by done. apply lowered_rendered.
  apply fold_lowered; [by apply lowered_elements|constructor].
Qed.

Lemma TrimPrefix_app (prefix rest : string) :
  strings.TrimPrefix (prefix +:+ rest) prefix = rest.
Proof.
  unfold strings.TrimPrefix.
  assert (Hcut : strings.cutPrefix (prefix +:+ rest) prefix = Some rest).
  { induction prefix as [|c p IH]; [by destruct rest|].
    rewrite append_String. cbn [strings.cutPrefix]. by rewrite decide_True. }
  by rewrite Hcut.
Qed.

(** C4.  The topic of a request is the cleaned, lowered path after the
    prefix [/topics/].  When that is empty or [.], [getTopic] fails
    with [ErrInvalidTopic]; otherwise it is the topic, and every topic
    that [getTopic] accepts is lowered, is left as it is by [Clean],
    is not empty and is not [.]. *)
Theorem getTopic_normalizes (r : http.Request) :
  let name :=
    Clean (strings.ToLower (strings.TrimPrefix (http.URL_Path r) "/topics/")) in
  (∀ rest, http.URL_Path r = "/topics/" +:+ rest →
     name = Clean (strings.ToLower rest))
  ∧ (name = "" ∨ name = "." → server.getTopic r = ("", Some ErrInvalidTopic))
  ∧ (name ≠ "" → name ≠ "." → server.getTopic r = (name, None))
  ∧ (∀ topic, server.getTopic r = (topic, None) →
       topic = name ∧ lowered topic ∧ Clean topic = topic
       ∧ topic ≠ "" ∧ topic ≠ ".").
Proof.
  intros name. split; [|split; [|split]].
  - intros rest Hpath. unfold name. by rewrite Hpath, TrimPrefix_app.
  - intros Hbad. unfold server.getTopic. fold name.
    destruct Hbad as [->| ->]; reflexivity.
  - intros Hne Hnd. unfold server.getTopic. fold name.
    by rewrite !bool_decide_eq_false_2.
  - intros topic. unfold server.getTopic. fold name.
    destruct (bool_decide (name = "")) eqn:He; [discriminate|].
    destruct (bool_decide (name = ".")) eqn:Hd; [discriminate|].
    cbn [orb]. intros [= <-].
    apply bool_decide_eq_false in He, Hd.
    repeat split; try done.
    + apply lowered_Clean. apply (ToLower_idem Hlaws).
    + apply Clean_idempotent.
Qed.

End topics.

(** * Properties of the handlers *)

Section strings_facts.

Lemma append_assoc (a b c : string) : (a +:+ b) +:+ c = a +:+ b +:+ c.
Proof. induction a as [|x a IH]; [done|]. rewrite !append_String. by rewrite IH. Qed.

Lemma append_nil_r (a : string) : a +:+ "" = a.
Proof. induction a as [|x a IH]; [done|]. rewrite append_String. by rewrite IH. Qed.

Lemma canonical_empty (upper : bool) (s : string) :
  textproto.canonical upper s = "" ↔ s = "".
Proof. by destruct s. Qed.

Lemma CanonicalHeaderKey_empty (s : string) : http.CanonicalHeaderKey s = "" ↔ s = "".
Proof.
  unfold http.CanonicalHeaderKey, textproto.CanonicalMIMEHeaderKey.
  destruct (textproto.allValid s); [apply canonical_empty|tauto].
Qed.

Lemma parseDigits_nonneg (s : string) :
  ∀ n m, 0 ≤ n → strconv.parseDigits s n = inl m → 0 ≤ m.
Proof.
  induction s as [|c s IH]; intros n m Hn; cbn [strconv.parseDigits].
  - by intros [= <-].
  - unfold strconv.digit. destruct (_ && _) eqn:Hc; [|discriminate].
    repeat case_bool_decide; try discriminate.
    apply IH. apply andb_true_iff in Hc as [Hc _].
    assert (48 ≤ Z.of_N (N_of_ascii c)); [|lia].
    unfold Ascii.leb, Ascii.compare in Hc.
    destruct (N.compare_spec (N_of_ascii "0") (N_of_ascii c)) as [Heq|Hlt|Hgt];
      try discriminate; cbn in *; lia.
Qed.

(** A number written with a minus sign is not above zero. *)
Lemma ParseInt_minus (rest : string) (n : Z) :
  strconv.ParseInt (String "-" rest) = inl n → n ≤ 0.
Proof.
  unfold strconv.ParseInt. cbv zeta.
  rewrite (bool_decide_eq_true_2 ("-"%char = "-"%char)) by done.
  rewrite orb_true_r. unfold strconv.ParseUint.
  destruct rest as [|c rest]; [discriminate|].
  destruct (strconv.parseDigits (String c rest) 0) as [un|e] eqn:Hun; [|discriminate].
  apply parseDigits_nonneg in Hun; [|done].
  cbn [negb andb]. case_bool_decide; [discriminate|]. intros [= <-]. lia.
Qed.

End strings_facts.

Section handlers.
Context {Q : Type} {HQ : server.Queue Q} {HU : strings.Unicode} {HC : json.Codec}.

Lemma allowedHeaders_filter (values : list string) :
  server.allowedHeaders values
  = map http.CanonicalHeaderKey (filter (λ v, v ≠ "") (map strings.TrimSpace values)).
Proof.
  induction values as [|v values IH]; [done|].
  cbn [server.allowedHeaders map]. rewrite filter_cons.
  destruct (decide (strings.TrimSpace v ≠ "")) as [Hne|Heq].
  - rewrite bool_decide_eq_false_2 by by rewrite CanonicalHeaderKey_empty.
    cbn [map]. by rewrite IH.
  - rewrite bool_decide_eq_true_2; [done|].
    apply CanonicalHeaderKey_empty. by destruct (decide (strings.TrimSpace v = "")).
Qed.

(** C8.  [HandleOptions] copies the requested method to
    [Access-Control-Allow-Methods], sets [Access-Control-Allow-Headers]
    to the requested headers, trimmed and in canonical form, leaving
    out those that are empty once trimmed (the header is left alone if
    none remains), writes no body and responds 200. *)
Theorem HandleOptions_echoes_preflight
    (s : server.Server Q) (w : http.ResponseWriter) (r : http.Request) :
  let values := http.Header_Values (http.Header r) "Access-Control-Request-Headers" in
  let echoed :=
    map http.CanonicalHeaderKey (filter (λ v, v ≠ "") (map strings.TrimSpace values)) in
  let w' := (server.HandleOptions s w r).2 in
  (server.HandleOptions s w r).1 = s
  ∧ http.header w' !! "Access-Control-Allow-Methods"
    = Some [http.Header_Get (http.Header r) "Access-Control-Request-Method"]
  ∧ http.header w' !! "Access-Control-Allow-Headers"
    = (if decide (echoed = []) then http.header w !! "Access-Control-Allow-Headers"
       else Some echoed)
  ∧ http.body w' = http.body w
  ∧ (http.wroteHeader w = false →
     http.wroteHeader w' = true ∧ http.code w' = http.StatusOK
     ∧ http.sent w' = http.header w').
Proof.
  intros values echoed w'. subst w'. unfold server.HandleOptions.
  rewrite allowedHeaders_filter. fold values. fold echoed. cbn [fst snd].
  set (w1 := if bool_decide (0 < length echoed)%nat then _ else w).
  assert (Hw1 : http.header w1 !! "Access-Control-Allow-Headers"
                = (if decide (echoed = []) then http.header w !! "Access-Control-Allow-Headers"
                   else Some echoed)
                ∧ http.body w1 = http.body w ∧ http.wroteHeader w1 = http.wroteHeader w).
  { subst w1. destruct echoed as [|x l]; [done|].
    rewrite bool_decide_eq_true_2 by (cbn; lia). cbn. by rewrite lookup_insert_eq. }
  destruct Hw1 as (Hhdr & Hbody & Hwrote).
  assert (Hset : ∀ v, http.header (http.SetHeader w1 "Access-Control-Allow-Methods" v)
                      = <["Access-Control-Allow-Methods" := [v]]> (http.header w1)) by done.
  split; [done|]. unfold http.WriteHeader.
  destruct (http.wroteHeader (http.SetHeader w1 _ _)) eqn:Hcommitted; cbn [http.header http.body].
  - rewrite Hset, lookup_insert_eq, lookup_insert_ne, Hhdr by done.
    split; [done|]. split; [done|]. split; [done|].
    intros Hfresh. cbn in Hcommitted. congruence.
  - rewrite Hset, lookup_insert_eq, lookup_insert_ne, Hhdr by done.
    split; [done|]. split; [done|]. split; [done|]. done.
Qed.

Lemma Write_fresh (w : http.ResponseWriter) (b : string) :
  http.wroteHeader w = false →
  http.body (http.Write w b) = http.body w +:+ b
  ∧ http.code (http.Write w b) = http.StatusOK
  ∧ http.sent (http.Write w b) = http.header w
  ∧ http.header (http.Write w b) = http.header w.
Proof. intros Hw. unfold http.Write, http.WriteHeader. by rewrite Hw. Qed.

(** The response of [HandleGetAllTopics] when [ListTopics] succeeds. *)
Lemma HandleGetAllTopics_ok
    (s : server.Server Q) (w : http.ResponseWriter) (r : http.Request)
    (q' : Q) (topics : option (list string)) :
  server.ListTopics (server.q s) (url.Get (http.URL_Query r) "prefix")
    (url.Get (http.URL_Query r) "suffix") (url.Get (http.URL_Query r) "regex")
  = (q', (topics, None)) →
  server.HandleGetAllTopics s w r
  = (server.withQueue s q',
     if bool_decide (http.Header_Get (http.Header r) "Accept" = "application/json")
     then http.Write (http.setHeader w headers.ContentType ["application/json"])
            (json.Marshal "topics" (Some (default [] topics)))
     else http.Write (http.setHeader w headers.ContentType ["text/csv"])
            (strings.Join (default [] topics) ",")).
Proof.
  intros Hlist. unfold server.HandleGetAllTopics. rewrite Hlist.
  destruct topics; by destruct (bool_decide _).
Qed.

Lemma Marshal_array (key : string) (names : list string) :
  json.Marshal key (Some names)
  = "{" +:+ json.quote key +:+ ":" +:+ "["
    +:+ strings.Join (map json.encodeString names) "," +:+ "]" +:+ "}".
Proof. unfold json.Marshal, json.encodeStrings. by rewrite !append_assoc. Qed.

(** C6.  A [GET /topics] for which [ListTopics] succeeds is answered
    with status 200.  With [Accept: application/json] the body is the
    object with the one key [topics] and the array of the names, sent
    as [application/json]; with any other [Accept] it is the names
    joined by commas, sent as [text/csv]. *)
Theorem HandleGetAllTopics_json_or_csv
    (s : server.Server Q) (w : http.ResponseWriter) (r : http.Request)
    (q' : Q) (topics : option (list string)) :
  server.ListTopics (server.q s) (url.Get (http.URL_Query r) "prefix")
    (url.Get (http.URL_Query r) "suffix") (url.Get (http.URL_Query r) "regex")
  = (q', (topics, None)) →
  http.wroteHeader w = false →
  let names := default [] topics in
  let w' := (server.HandleGetAllTopics s w r).2 in
  http.code w' = http.StatusOK
  ∧ (http.Header_Get (http.Header r) "Accept" = "application/json" →
     http.body w' = http.body w +:+ "{" +:+ json.quote "topics" +:+ ":" +:+ "["
                      +:+ strings.Join (map json.encodeString names) "," +:+ "]" +:+ "}"
     ∧ http.sent w' !! "Content-Type" = Some ["application/json"])
  ∧ (http.Header_Get (http.Header r) "Accept" ≠ "application/json" →
     http.body w' = http.body w +:+ strings.Join names ","
     ∧ http.sent w' !! "Content-Type" = Some ["text/csv"]).
Proof.
  intros Hlist Hfresh names w'. subst w'.
  rewrite (HandleGetAllTopics_ok _ _ _ _ _ Hlist). fold names. cbn [snd].
  destruct (bool_decide _) eqn:Haccept;
    [apply bool_decide_eq_true in Haccept|apply bool_decide_eq_false in Haccept].
  - destruct (Write_fresh (http.setHeader w headers.ContentType ["application/json"])
                (json.Marshal "topics" (Some names)) Hfresh) as (-> & -> & -> & _).
    split; [done|]. split; [|done]. intros _. split; [|by apply lookup_insert_eq].
    by rewrite Marshal_array.
  - destruct (Write_fresh (http.setHeader w headers.ContentType ["text/csv"])
                (strings.Join names ",") Hfresh) as (-> & -> & -> & _).
    split; [done|]. split; [done|]. intros _. split; [done|]. by apply lookup_insert_eq.
Qed.

(** C10.  When [ListTopics] returns a nil slice and no error, the
    handler writes the JSON object with an empty array for
    [Accept: application/json], and writes no byte otherwise. *)
Theorem HandleGetAllTopics_nil_is_empty_list
    (s : server.Server Q) (w : http.ResponseWriter) (r : http.Request) (q' : Q) :
  server.ListTopics (server.q s) (url.Get (http.URL_Query r) "prefix")
    (url.Get (http.URL_Query r) "suffix") (url.Get (http.URL_Query r) "regex")
  = (q', (None, None)) →
  http.wroteHeader w = false →
  let w' := (server.HandleGetAllTopics s w r).2 in
  (http.Header_Get (http.Header r) "Accept" = "application/json" →
   http.body w' = http.body w +:+ "{" +:+ json.quote "topics" +:+ ":[]}")
  ∧ (http.Header_Get (http.Header r) "Accept" ≠ "application/json" →
     http.body w' = http.body w).
Proof.
  intros Hlist Hfresh w'. subst w'.
  rewrite (HandleGetAllTopics_ok _ _ _ _ _ Hlist). cbn [snd default].
  split; intros Haccept.
  - rewrite bool_decide_eq_true_2 by done.
    by destruct (Write_fresh (http.setHeader w headers.ContentType ["application/json"])
                   (json.Marshal "topics" (Some [])) Hfresh) as (-> & _).
  - rewrite bool_decide_eq_false_2 by done.
    destruct (Write_fresh (http.setHeader w headers.ContentType ["text/csv"])
                (strings.Join [] ",") Hfresh) as (-> & _).
    apply append_nil_r.
Qed.

End handlers.

Section modify_consume.
Context {Q : Type} {HQ : server.Queue Q} {HU : strings.Unicode} {HC : json.Codec}.

(** C3.  For a PATCH request with a body that decodes, on a valid
    topic: when [truncate] is 0 the handler responds 204, writes no
    body and leaves the queue as it was ([ModifyTopic] is not called);
    otherwise, when [ModifyTopic] succeeds, it responds 200 with the
    JSON object of [minOffset] and [maxOffset], sent as
    [application/json]. *)
Theorem HandleModifyTopic_truncate
    (s : server.Server Q) (w : http.ResponseWriter) (r : http.Request)
    (b topic : string) (request : headers.ModifyRequest) :
  http.Body r = Some b →
  server.getTopic r = (topic, None) →
  json.decodeModifyRequest b = Some request →
  http.wroteHeader w = false →
  (headers.Truncate request = 0 →
   server.HandleModifyTopic s w r = (s, http.WriteHeader w http.StatusNoContent)
   ∧ http.code (server.HandleModifyTopic s w r).2 = http.StatusNoContent
   ∧ http.body (server.HandleModifyTopic s w r).2 = http.body w)
  ∧ (headers.Truncate request ≠ 0 →
     ∀ q' info, server.ModifyTopic (server.q s) topic request = (q', (info, None)) →
       let w' := (server.HandleModifyTopic s w r).2 in
       (server.HandleModifyTopic s w r).1 = server.withQueue s q'
       ∧ http.code w' = http.StatusOK
       ∧ http.sent w' !! "Content-Type" = Some ["application/json"]
       ∧ http.body w'
         = http.body w +:+ "{" +:+ json.quote "minOffset" +:+ ":"
             +:+ pretty (headers.MinOffset info) +:+ ","
             +:+ json.quote "maxOffset" +:+ ":"
             +:+ pretty (headers.MaxOffset info) +:+ "}" +:+ String "010" "").
Proof.
  intros Hbody Htopic Hdecode Hfresh.
  unfold server.HandleModifyTopic. rewrite Hbody, Htopic, Hdecode. split.
  - intros Hzero. rewrite bool_decide_eq_true_2 by done. cbn [snd].
    unfold http.WriteHeader. by rewrite Hfresh.
  - intros Hnonzero q' info Hmodify. rewrite bool_decide_eq_false_2 by done.
    rewrite Hmodify. cbn [fst snd].
    unfold http.Write, http.WriteHeader. cbn [http.setHeader http.wroteHeader].
    rewrite Hfresh. cbn. split; [done|]. split; [done|].
    split; [by apply lookup_insert_eq|done].
Qed.

(** C5.  When [Consume] returns no message and no error, the handler
    ends with [SetError(w, ErrNoContent)] and records no consumed
    message: the [X-Error] header holds the token of [ErrNoContent]
    and, the queue having written no header, the status is that of
    [ErrNoContent], 204, not 200. *)
Theorem HandleConsume_no_content
    (s : server.Server Q) (w : http.ResponseWriter) (r : http.Request)
    (topic : string) (id limit : Z) (q' : Q) (w1 : http.ResponseWriter) :
  server.getTopic r = (topic, None) →
  strconv.ParseInt (url.Get (http.URL_Query r) "id") = inl id →
  server.consumeLimit s (url.Get (http.URL_Query r) "limit") = inl limit →
  server.Consume (server.q s) topic id limit w = (q', w1, (0, None)) →
  let s' := (server.HandleConsume s w r).1 in
  let w' := (server.HandleConsume s w r).2 in
  s' = server.withQueue s q'
  ∧ server.metrics s' = server.metrics s
  ∧ w' = headers.SetError w1 ErrNoContent
  ∧ http.header w' !! "X-Error" = Some [headers.Error ErrNoContent]
  ∧ (http.wroteHeader w1 = false →
     http.code w' = http.StatusNoContent ∧ http.code w' ≠ http.StatusOK
     ∧ http.sent w' !! "X-Error" = Some [headers.Error ErrNoContent]).
Proof.
  intros Htopic Hid Hlimit Hconsume s' w'. subst s' w'.
  unfold server.HandleConsume. rewrite Htopic, Hid, Hlimit, Hconsume.
  cbn [server.consumed]. rewrite bool_decide_eq_true_2 by done. cbn [fst snd].
  split; [done|]. split; [done|]. split; [done|].
  unfold headers.SetError, http.WriteHeader. cbn [http.setHeader http.wroteHeader].
  destruct (http.wroteHeader w1); cbn [http.header].
  - split; [by apply lookup_insert_eq|done].
  - split; [by apply lookup_insert_eq|]. intros _. cbn.
    split; [done|]. split; [done|]. by apply lookup_insert_eq.
Qed.

Lemma consumeLimit_empty (s : server.Server Q) :
  server.consumeLimit s "" = inl (server.defaultConsumeLimit s).
Proof. reflexivity. Qed.

Lemma consumeLimit_minus (s : server.Server Q) (rest : string) :
  server.consumeLimit s (String "-" rest) = inl (server.defaultConsumeLimit s).
Proof.
  unfold server.consumeLimit. by rewrite bool_decide_eq_false_2 by (intros Hne; by apply Hne).
Qed.

Lemma consumeLimit_parse (s : server.Server Q) (queryLimit : string) :
  queryLimit ≠ "" → (∀ rest, queryLimit ≠ String "-" rest) →
  server.consumeLimit s queryLimit
  = match strconv.ParseInt queryLimit with
    | inr _ => inr ErrInvalidMessageLimit
    | inl n => inl (if bool_decide (n ≤ 0) then server.defaultConsumeLimit s else n)
    end.
Proof.
  intros Hne Hnominus. destruct queryLimit as [|c rest]; [done|].
  unfold server.consumeLimit. rewrite bool_decide_eq_true_2.
  - destruct (strconv.ParseInt _); [|done]. by case_bool_decide.
  - intros ->. by apply (Hnominus rest).
Qed.

Lemma minus_or_not (queryLimit : string) :
  (∃ rest, queryLimit = String "-" rest) ∨ (∀ rest, queryLimit ≠ String "-" rest).
Proof.
  destruct queryLimit as [|c rest]; [by right|].
  destruct (decide (c = "-"%char)) as [->|Hc]; [left; eauto|].
  right. intros rest' [= ? _]. done.
Qed.

(** C2, as the code has it.  An omitted (or empty) [limit], one that
    starts with a minus sign, and one that parses to 0 or less, give
    the server's default limit; one that parses to more than 0 is
    used as given.  A [limit] that is not empty, does not start with a
    minus sign and does not parse as an [int64] ends the request with
    [ErrInvalidMessageLimit], the queue not being called. *)
Theorem HandleConsume_limit
    (s : server.Server Q) (w : http.ResponseWriter) (r : http.Request)
    (topic : string) (id : Z) :
  server.getTopic r = (topic, None) →
  strconv.ParseInt (url.Get (http.URL_Query r) "id") = inl id →
  let queryLimit := url.Get (http.URL_Query r) "limit" in
  let consume limit := server.consumed s (server.Consume (server.q s) topic id limit w) in
  (queryLimit = "" ∨ (∃ rest, queryLimit = String "-" rest) →
   server.HandleConsume s w r = consume (server.defaultConsumeLimit s))
  ∧ (∀ n, strconv.ParseInt queryLimit = inl n → n ≤ 0 →
       server.HandleConsume s w r = consume (server.defaultConsumeLimit s))
  ∧ (∀ n, strconv.ParseInt queryLimit = inl n → 0 < n →
       server.HandleConsume s w r = consume n)
  ∧ (∀ e, queryLimit ≠ "" → (∀ rest, queryLimit ≠ String "-" rest) →
       strconv.ParseInt queryLimit = inr e →
       server.HandleConsume s w r = (s, headers.SetError w ErrInvalidMessageLimit)).
Proof.
  intros Htopic Hid queryLimit consume. subst consume.
  unfold server.HandleConsume. rewrite Htopic, Hid. fold queryLimit.
  split; [|split; [|split]].
  - intros [->|[rest ->]]; [by rewrite consumeLimit_empty|by rewrite consumeLimit_minus].
  - intros n Hparse Hn. destruct (minus_or_not queryLimit) as [[rest ->]|Hnominus];
      [by rewrite consumeLimit_minus|].
    rewrite consumeLimit_parse, Hparse; [by rewrite bool_decide_eq_true_2|..|done].
    intros Hempty. by rewrite Hempty in Hparse.
  - intros n Hparse Hn. destruct (minus_or_not queryLimit) as [[rest Hminus]|Hnominus].
    + rewrite Hminus in Hparse. apply ParseInt_minus in Hparse. lia.
    + rewrite consumeLimit_parse, Hparse; [by rewrite bool_decide_eq_false_2 by lia|..|done].
      intros Hempty. by rewrite Hempty in Hparse.
  - intros e Hne Hnominus Hparse. by rewrite consumeLimit_parse, Hparse.
Qed.

End modify_consume.

(** * The statements on concrete requests and writers *)

Section runs.
#[local] Existing Instance strings.ascii.
#[local] Existing Instance mock.codec.

Import filequeue.

Lemma Source_productive : productive (R := mock.Source).
Proof.
  intros r k Hk. destruct k as [|k]; [lia|].
  cbn. unfold mock.Source_Read. destruct (mock.data r) as [|b l]; cbn; [by right|by left].
Qed.

(** A reader that ends after three of the four bytes asked for: the
    read fails and no file is written. *)
Lemma CopyNAt_writes_only_after_full_read_witness :
  productive (R := mock.Source) ∧ 0 ≤ 4 ∧ (Z.to_nat 4 ≤ 4)%nat
  ∧ ∃ r', MultiWriteAtCloser.CopyNAt 4 [] mirrors (source abc) 4 0
          = Some (r', mirrors, Returned (Some (Wrap ErrUnexpectedEOF "unable to read input"))).
Proof.
  split; [exact Source_productive|]. split; [lia|]. split; [lia|].
  destruct (CopyNAt_writes_only_after_full_read 4 [] mirrors (source abc) 4 0)
    as (_ & Hends & Hinv).
  destruct (Hends ltac:(lia) Source_productive ltac:(lia)) as [[[r' mw'] res] Hrun].
  destruct (Hinv ltac:(lia) r' mw' res Hrun)
    as (buf0 & buf & n & err & Hbuf & Hread & _ & _ & _ & Hshort & _).
  vm_compute in Hbuf. injection Hbuf as <-.
  vm_compute in Hread. injection Hread as <- <- <- <-.
  destruct (Hshort ltac:(vm_compute; lia)) as (e & [= <-] & -> & ->).
  eexists. exact Hrun.
Defined.

(** C9 as the specification has it: when the reader errors,
    [CopyNAt] returns an error and no writer is written.  A reader
    whose first [Read] gives all three bytes asked for together with an
    error is a reader that errors; [io.ReadAtLeast] drops the error,
    and [CopyNAt] writes the bytes to the file and returns nil. *)
Lemma CopyNAt_reader_error_written :
  ¬ (∀ (W : Type) (HW : filequeue.WriteAtCloser W) (R : Type) (HR : io.Reader R)
       (fuel : nat) (pooled : list byte) (mw : list W) (r : R) (N off : Z)
       (r' : R) (mw' : list W) (res : outcome),
       0 ≤ N →
       (io.Read r (Z.to_nat N)).2.2 ≠ None →
       MultiWriteAtCloser.CopyNAt fuel pooled mw r N off = Some (r', mw', res) →
       mw' = mw ∧ ∃ e, res = Returned (Some e)).
Proof.
  intros Hclaim.
  pose proof (Hclaim mock.File mock.File_WriteAtCloser mock.Source mock.Source_Reader
                3%nat [] [mock.newFile 8 None]
                {| mock.data := abc; mock.chunk := 7; mock.ending := Some (New "reset");
                   mock.eager := true |} 3 0) as Hrun.
  edestruct Hrun as (_ & e & He);
    [lia | vm_compute; discriminate | cbv; reflexivity | discriminate He].
Qed.

(** [io.ReadAtLeast] drops an error that comes with the last byte it
    asked for: the read is complete and the bytes are written. *)
Example CopyNAt_error_with_last_byte :
  let r := {| mock.data := abc; mock.chunk := 7; mock.ending := Some (New "reset");
              mock.eager := true |} in
  io.Read r 3 = ({| mock.data := []; mock.chunk := 7; mock.ending := Some (New "reset");
                    mock.eager := true |}, (abc, Some (New "reset")))
  ∧ ∃ r' f, MultiWriteAtCloser.CopyNAt 3 [] [mock.newFile 8 None] r 3 0
            = Some (r', [f], Returned None)
            ∧ mock.content f = abc.
Proof. vm_compute. split; [done|]. do 2 eexists. split; reflexivity. Qed.

(** All four bytes are read: both files receive the write at offset 2,
    and the second, which has room for two bytes only, makes the call
    fail after the first was written. *)
Example CopyNAt_full_read_short_write :
  ∃ r' f1 f2,
    MultiWriteAtCloser.CopyNAt 4 [] mirrors (source abcdef) 4 2
    = Some (r', [f1; f2],
            Returned (Some (Wrap (New "no space left") "unable to copy to log file")))
    ∧ mock.writes f1 = [([x61; x62; x63; x64], 2)]
    ∧ mock.content f1 = [x00; x00; x61; x62; x63; x64]
    ∧ mock.writes f2 = [([x61; x62; x63; x64], 2)].
Proof. vm_compute. do 3 eexists. repeat split. Qed.

Example WriteAt_two_mirrors :
  MultiWriteAtCloser.WriteAt [mock.newFile 8 None; mock.newFile 8 None] abc 0
  = ([ {| mock.content := abc; mock.room := 8;
          mock.shortErr := Some (New "no space left"); mock.closeErr := None;
          mock.writes := [(abc, 0)]; mock.closes := 0 |};
       {| mock.content := abc; mock.room := 8;
          mock.shortErr := Some (New "no space left"); mock.closeErr := None;
          mock.writes := [(abc, 0)]; mock.closes := 0 |} ], None).
Proof. vm_compute. reflexivity. Qed.

(** A writer that reports two bytes of three with no error, or with
    [io.EOF], makes [WriteAt] fail with its own error, and the writer
    after it is not called. *)
Example WriteAt_incomplete :
  let quiet e := {| mock.content := []; mock.room := 2; mock.shortErr := e;
                    mock.closeErr := None; mock.writes := []; mock.closes := 0 |} in
  map (λ e, let '(mw, err) := MultiWriteAtCloser.WriteAt [quiet e; mock.newFile 8 None] abc 0 in
            (map mock.writes mw, err))
      [None; Some EOF; Some (Wrap EOF "read"); Some ErrUnexpectedEOF]
  = [([[(abc, 0)]; []], Some (New "incomplete write"));
     ([[(abc, 0)]; []], Some (New "incomplete write"));
     ([[(abc, 0)]; []], Some (New "incomplete write"));
     ([[(abc, 0)]; []], Some ErrUnexpectedEOF)].
Proof. vm_compute. reflexivity. Qed.

Example Close_after_failure :
  let '(mw, err) :=
    MultiWriteAtCloser.Close
      [mock.newFile 8 (Some (New "first")); mock.newFile 8 None;
       mock.newFile 8 (Some (New "third")); mock.newFile 8 None] in
  map mock.closes mw = [1; 1; 1; 1]%nat ∧ err = Some (New "third").
Proof. vm_compute. done. Qed.

Lemma getTopic_normalizes_witness :
  LowerLaws
  ∧ server.getTopic (mock.request "/topics/Logs//EU/../Audit/" [] [] None)
    = ("logs/audit", None)
  ∧ lowered "logs/audit" ∧ filepath.Clean "logs/audit" = "logs/audit".
Proof.
  split; [exact ascii_LowerLaws|].
  destruct (getTopic_normalizes ascii_LowerLaws
              (mock.request "/topics/Logs//EU/../Audit/" [] [] None))
    as (_ & _ & _ & Haccepted).
  assert (Hrun : server.getTopic (mock.request "/topics/Logs//EU/../Audit/" [] [] None)
                 = ("logs/audit", None)) by (vm_compute; reflexivity).
  destruct (Haccepted _ Hrun) as (_ & Hlow & Hclean & _). done.
Defined.

Example getTopic_rejects :
  map (λ p, server.getTopic (mock.request p [] [] None))
      ["/topics/"; "/topics/."; "/topics/A/.."; "/topics/./"; "/topics/.."; "/topics//"]
  = [("", Some ErrInvalidTopic); ("", Some ErrInvalidTopic); ("", Some ErrInvalidTopic);
     ("", Some ErrInvalidTopic); ("..", None); ("/", None)].
Proof. vm_compute. reflexivity. Qed.

End runs.

Section requests.
#[local] Existing Instance strings.ascii.
#[local] Existing Instance mock.codec.

Lemma HandleGetAllTopics_json_or_csv_witness :
  http.body (listing (Some ["topic_1"; "topic_2"]) ["application/json"]).2
  = "{" +:+ json.quote "topics" +:+ ":[" +:+ json.quote "topic_1" +:+ ","
    +:+ json.quote "topic_2" +:+ "]}"
  ∧ http.sent (listing (Some ["topic_1"; "topic_2"]) ["application/json"]).2
      !! "Content-Type" = Some ["application/json"].
Proof.
  destruct (HandleGetAllTopics_json_or_csv (HQ := mock.Queue_Queue)
              (mock.newServer (queue (Some ["topic_1"; "topic_2"]) 0) 10) http.NewRecorder
              (mock.request "/topics" [] [("Accept", ["application/json"])] None)
              (mock.called (queue (Some ["topic_1"; "topic_2"]) 0) "ListTopics")
              (Some ["topic_1"; "topic_2"]) ltac:(vm_compute; reflexivity) ltac:(vm_compute; reflexivity)) as (_ & Hjson & _).
  exact (Hjson eq_refl).
Defined.

Example HandleGetAllTopics_csv :
  http.body (listing (Some ["topic_1"; "topic_2"; "topic_3"]) []).2
  = "topic_1,topic_2,topic_3"
  ∧ http.sent (listing (Some ["topic_1"; "topic_2"; "topic_3"]) []).2 !! "Content-Type"
    = Some ["text/csv"].
Proof. vm_compute. done. Qed.

Lemma HandleGetAllTopics_nil_is_empty_list_witness :
  http.body (listing None ["application/json"]).2 = "{" +:+ json.quote "topics" +:+ ":[]}"
  ∧ http.body (listing None ["text/csv"]).2 = "".
Proof.
  split.
  - destruct (HandleGetAllTopics_nil_is_empty_list (HQ := mock.Queue_Queue)
                (mock.newServer (queue None 0) 10) http.NewRecorder
                (mock.request "/topics" [] [("Accept", ["application/json"])] None)
                (mock.called (queue None 0) "ListTopics") ltac:(vm_compute; reflexivity) ltac:(vm_compute; reflexivity)) as (Hjson & _).
    exact (Hjson eq_refl).
  - vm_compute. reflexivity.
Defined.

Lemma HandleModifyTopic_truncate_witness :
  (patching ("{" +:+ json.quote "truncate" +:+ ":0}")).2
  = http.WriteHeader http.NewRecorder http.StatusNoContent
  ∧ mock.calls (server.q (patching ("{" +:+ json.quote "truncate" +:+ ":0}")).1) = [].
Proof.
  destruct (HandleModifyTopic_truncate (HQ := mock.Queue_Queue) (HU := strings.ascii) (HC := mock.codec)
              (mock.newServer (queue None 0) 10) http.NewRecorder
              (mock.request "/topics/T1" [] [] (Some ("{" +:+ json.quote "truncate" +:+ ":0}")))
              ("{" +:+ json.quote "truncate" +:+ ":0}") "t1"
              {| headers.Truncate := 0; headers.Before := "" |}
              ltac:(vm_compute; reflexivity) ltac:(vm_compute; reflexivity) ltac:(vm_compute; reflexivity) ltac:(vm_compute; reflexivity)) as (Hzero & _).
  destruct (Hzero eq_refl) as (Hrun & _). unfold patching. rewrite Hrun. done.
Defined.

Example HandleModifyTopic_truncates :
  let '(s, w) := patching ("{" +:+ json.quote "truncate" +:+ ":4}") in
  mock.calls (server.q s) = ["ModifyTopic"] ∧ http.code w = 200
  ∧ http.body w = "{" +:+ json.quote "minOffset" +:+ ":4," +:+ json.quote "maxOffset"
                    +:+ ":5}" +:+ String "010" "".
Proof. vm_compute. done. Qed.

Lemma HandleConsume_no_content_witness :
  http.header (consuming 0 ["10"]).2 !! "X-Error" = Some ["no-content"]
  ∧ http.code (consuming 0 ["10"]).2 = 204
  ∧ server.metrics (consuming 0 ["10"]).1 = [].
Proof.
  destruct (HandleConsume_no_content (HQ := mock.Queue_Queue) (HU := strings.ascii)
              (mock.newServer (queue None 0) 10) http.NewRecorder
              (mock.request "/topics/t1" [("id", ["0"]); ("limit", ["10"])] [] None)
              "t1" 0 10 (mock.called (queue None 0) "Consume") http.NewRecorder
              ltac:(vm_compute; reflexivity) ltac:(vm_compute; reflexivity) ltac:(vm_compute; reflexivity) ltac:(vm_compute; reflexivity)) as (_ & Hmetrics & _ & Hheader & Hfresh).
  destruct (Hfresh eq_refl) as (Hcode & _). done.
Defined.

Example HandleConsume_counts :
  server.metrics (consuming 3 ["10"]).1 = [server.ConsumeMsgs 3]
  ∧ http.header (consuming 3 ["10"]).2 !! "X-Error" = None.
Proof. vm_compute. done. Qed.

(** [limit=abc] is refused; the queue is not called. *)
Lemma HandleConsume_limit_witness :
  consuming 3 ["abc"]
  = (mock.newServer (queue None 3) 10,
     headers.SetError http.NewRecorder ErrInvalidMessageLimit).
Proof.
  destruct (HandleConsume_limit (HQ := mock.Queue_Queue) (HU := strings.ascii)
              (mock.newServer (queue None 3) 10) http.NewRecorder
              (mock.request "/topics/t1" [("id", ["0"]); ("limit", ["abc"])] [] None)
              "t1" 0 ltac:(vm_compute; reflexivity) ltac:(vm_compute; reflexivity)) as (_ & _ & _ & Hbad).
  apply (Hbad ErrSyntax); [done|done|reflexivity].
Defined.

(** C2 as the specification has it: a [limit] that is present and
    does not parse as an [int64] is refused with
    [ErrInvalidMessageLimit].  [limit=-x] does not parse, and the
    handler consumes with the default limit. *)
Lemma HandleConsume_unparsable_limit_accepted :
  ¬ (∀ (s : server.Server mock.Queue) (w : http.ResponseWriter) (r : http.Request)
       (topic : string) (id : Z) (e : error),
       server.getTopic r = (topic, None) →
       strconv.ParseInt (url.Get (http.URL_Query r) "id") = inl id →
       url.Get (http.URL_Query r) "limit" ≠ "" →
       strconv.ParseInt (url.Get (http.URL_Query r) "limit") = inr e →
       server.HandleConsume s w r = (s, headers.SetError w ErrInvalidMessageLimit)).
Proof.
  intros Hclaim.
  specialize (Hclaim (mock.newServer (queue None 3) 10) http.NewRecorder
                (mock.request "/topics/t1" [("id", ["0"]); ("limit", ["-x"])] [] None)
                "t1" 0 ErrSyntax ltac:(vm_compute; reflexivity) ltac:(vm_compute; reflexivity) ltac:(done) ltac:(vm_compute; reflexivity)).
  apply (f_equal (λ out, server.metrics out.1)) in Hclaim.
  vm_compute in Hclaim. discriminate.
Qed.

Example HandleConsume_limits :
  map (λ l, mock.calls (server.q (consuming 3 l).1)) [[]; ["-x"]; ["-5"]; ["0"]; ["+7"]; ["7x"]]
  = [["Consume"]; ["Consume"]; ["Consume"]; ["Consume"]; ["Consume"]; []].
Proof. vm_compute. reflexivity. Qed.

Example HandleOptions_preflight :
  let '(_, w) :=
    server.HandleOptions (mock.newServer (queue None 0) 10) http.NewRecorder
      (mock.request "/topics/t1" []
         [("Access-Control-Request-Headers", [" x-sizes "; "  "; "content-TYPE"; "a b"]);
          ("Access-Control-Request-Method", ["POST"])] None) in
  http.sent w !! "Access-Control-Allow-Headers" = Some ["X-Sizes"; "Content-Type"; "a b"]
  ∧ http.sent w !! "Access-Control-Allow-Methods" = Some ["POST"]
  ∧ http.code w = 200.
Proof. vm_compute. done. Qed.

End requests.


(** * More on the multi-root writer *)

Section multiwriter_failures.
Context {W : Type} {HW : filequeue.WriteAtCloser W}.

Import filequeue.

(** When [WriteAt] fails, the writers before the first one whose write
    is not complete were all written in full, that writer was called
    too, and the writers after it were not called.  The error is that
    writer's own error, or the incomplete write error when it reported
    nil or [io.EOF]. *)
Theorem WriteAt_stops_at_first_failure
    (mw : list W) (p : list byte) (off : Z) (e : error) :
  (MultiWriteAtCloser.WriteAt mw p off).2 = Some e →
  ∃ before w rest,
    mw = (before ++ w :: rest)%list
    ∧ Forall (λ w, complete p (io.WriteAt w p off).2) before
    ∧ ¬ complete p (io.WriteAt w p off).2
    ∧ (MultiWriteAtCloser.WriteAt mw p off).1
      = (map (afterWrite p off) before ++ afterWrite p off w :: rest)%list
    ∧ Some e = (if bool_decide ((io.WriteAt w p off).2.2 ≠ None)
                   && negb (errors.Is (io.WriteAt w p off).2.2 EOF)
                then (io.WriteAt w p off).2.2
                else Some (New "incomplete write")).
Proof.
  induction mw as [|w rest IH]; [discriminate|].
  rewrite WriteAt_cons. cbn zeta.
  destruct (bool_decide ((io.WriteAt w p off).2.2 ≠ None)
            && negb (errors.Is (io.WriteAt w p off).2.2 EOF)) eqn:Herr.
  - cbn [fst snd]. intros He. exists [], w, rest. cbn [app map].
    split; [done|]. split; [constructor|]. split; [|by rewrite Herr].
    intros Hc. apply complete_dec in Hc as [Hc _]. congruence.
  - destruct (bool_decide ((io.WriteAt w p off).2.1 ≠ Z.of_nat (length p))) eqn:Hn.
    + cbn [fst snd]. intros [= <-]. exists [], w, rest. cbn [app map].
      split; [done|]. split; [constructor|]. split; [|by rewrite Herr].
      intros Hc. apply complete_dec in Hc as [_ Hc]. congruence.
    + cbn [fst snd]. intros He.
      destruct (IH He) as (before & w1 & rest1 & -> & Hbefore & Hw1 & Hstates & Hlast).
      exists (w :: before), w1, rest1. cbn [app map].
      split; [done|]. split.
      { constructor; [|done]. by apply complete_dec. }
      split; [done|]. split; [by rewrite Hstates|done].
Qed.

(** [Close] returns nil exactly when every underlying [Close] returned
    nil. *)
Theorem Close_nil_iff_all_nil (mw : list W) :
  (MultiWriteAtCloser.Close mw).2 = None
  ↔ Forall (λ w, (io.Close w).2 = None) mw.
Proof.
  unfold MultiWriteAtCloser.Close. rewrite CloseLoop_spec. cbn [snd].
  induction mw as [|w rest IH]; [by split|].
  cbn. rewrite Forall_cons. destruct (io.Close w).2 as [e|].
  - rewrite last_cons. split; [|intros [? _]; discriminate].
    by destruct (last _).
  - rewrite IH. tauto.
Qed.

(** A copy of zero bytes does not read: the reader is left as it is,
    whatever the fuel, and every writer receives a write of the empty
    slice at [off]. *)
Theorem CopyNAt_zero_bytes {R : Type} {HR : io.Reader R}
    (fuel : nat) (pooled : list byte) (mw : list W) (r : R) (off : Z) :
  MultiWriteAtCloser.CopyNAt fuel pooled mw r 0 off
  = Some (r, (MultiWriteAtCloser.WriteAt mw [] off).1,
          Returned (errors.Wrap (MultiWriteAtCloser.WriteAt mw [] off).2
                      "unable to copy to log file")).
Proof.
  unfold MultiWriteAtCloser.CopyNAt.
  assert (Hbuf : MultiWriteAtCloser.getBuf pooled 0 = Some []).
  { unfold MultiWriteAtCloser.getBuf. destruct (decide (0 > _)); [lia|].
    destruct (decide (0 < 0)); [lia|]. by rewrite take_0. }
  rewrite Hbuf. unfold io.ReadAtLeast. cbn [length].
  rewrite (decide_False (P := (0 < 0)%nat)) by lia.
  assert (Hloop : io.readLoop fuel r [] 0 0 None = Some (r, [], 0%nat, None)).
  { destruct fuel; cbn [io.readLoop];
      (destruct (decide _) as [[Hlt _]|_]; [lia|done]). }
  rewrite Hloop, (decide_True (P := (0 ≤ 0)%nat)) by lia.
  by destruct (MultiWriteAtCloser.WriteAt mw [] off).
Qed.

End multiwriter_failures.

Section stream.
Context {W : Type} {HW : filequeue.WriteAtCloser W}.

Import filequeue.

Lemma Source_Read_some (r : mock.Source) (k : nat) :
  (0 < k)%nat → mock.data r ≠ [] →
  ∃ m : nat, (0 < m ≤ k)%nat
    ∧ io.Read r k
      = ({| mock.data := drop m (mock.data r); mock.chunk := mock.chunk r;
            mock.ending := mock.ending r; mock.eager := mock.eager r |},
         (take m (mock.data r),
          if mock.eager r && bool_decide (length (mock.data r) ≤ m)%nat
          then Some (default EOF (mock.ending r)) else None)).
Proof.
  intros Hk Hdata. exists (Nat.min k (S (mock.chunk r))). split; [lia|].
  cbn [io.Read mock.Source_Reader]. unfold mock.Source_Read.
  destruct k as [|k]; [lia|]. by destruct (mock.data r) as [|b l].
Qed.

Lemma readLoop_Source (fuel : nat) :
  ∀ (r : mock.Source) (buf : list byte) (L n : nat) (err : option error),
    length buf = L → (n ≤ L)%nat → (L - n ≤ length (mock.data r))%nat →
    (L - n ≤ fuel)%nat → err = None ∨ n = L →
    ∃ r' err',
      io.readLoop fuel r buf n L err
      = Some (r', (take n buf ++ take (L - n) (mock.data r))%list, L, err')
      ∧ mock.data r' = drop (L - n) (mock.data r).
Proof.
  induction fuel as [|fuel IH]; intros r buf L n err Hlen Hn Hdata Hfuel Herr.
  - assert (n = L) as -> by lia. exists r, err. cbn [io.readLoop].
    destruct (decide _) as [[? _]|_]; [lia|].
    rewrite Nat.sub_diag, take_0, app_nil_r, drop_0, take_ge by lia. by subst L.
  - cbn [io.readLoop]. destruct (decide _) as [[Hlt Hnone]|Hstop].
    + destruct (Source_Read_some r (L - n)) as (m & Hm & Hread); [lia|..].
      { intros Hnil. rewrite Hnil in Hdata. cbn in Hdata. lia. }
      rewrite Hlen, Hread.
      set (r1 := {| mock.data := drop m (mock.data r) |}).
      set (err1 := if mock.eager r && _ then _ else None).
      assert (Hnn : length (take (L - n) (take m (mock.data r))) = m).
      { rewrite !length_take. lia. }
      rewrite Hnn.
      destruct (IH r1 (io.fill buf n (take m (mock.data r))) L (n + m)%nat err1)
        as (r' & err' & Hrun & Hrest).
      * rewrite fill_length; lia.
      * lia.
      * subst r1. cbn [mock.data]. rewrite length_drop. lia.
      * lia.
      * subst err1. destruct (mock.eager r); [|by left]. cbn [andb].
        case_bool_decide; [right; lia|by left].
      * exists r', err'. rewrite Hrun. split.
        -- f_equal. f_equal. f_equal. f_equal. unfold io.fill.
           rewrite Hlen. rewrite (take_ge (take m _)) by (rewrite length_take; lia).
           rewrite length_take, Nat.min_l by lia.
           rewrite app_assoc, take_app_length'
             by (rewrite length_app, !length_take; lia).
           subst r1. cbn [mock.data]. rewrite <- app_assoc. f_equal.
           rewrite take_take_drop. f_equal. lia.
        -- rewrite Hrest. subst r1. cbn [mock.data]. rewrite drop_drop. f_equal. lia.
    + assert (n = L) as ->.
      { destruct Herr as [->|?]; [|done]. destruct (decide (n < L)%nat); [|lia].
        exfalso. by apply Hstop. }
      exists r, err.
      rewrite Nat.sub_diag, take_0, app_nil_r, drop_0, take_ge by lia. done.
Qed.

(** From a stream that holds at least [N] bytes, whatever its chunking
    and whatever buffer the pool hands out, [CopyNAt(r, N, off)] takes
    exactly the first [N] bytes off the stream and hands exactly these
    bytes to [WriteAt] at [off]. *)
Theorem CopyNAt_copies_first_bytes
    (fuel : nat) (pooled : list byte) (mw : list W) (r : mock.Source) (N off : Z) :
  0 ≤ N → (Z.to_nat N ≤ length (mock.data r))%nat → (Z.to_nat N ≤ fuel)%nat →
  let p := take (Z.to_nat N) (mock.data r) in
  ∃ r', MultiWriteAtCloser.CopyNAt fuel pooled mw r N off
        = Some (r', (MultiWriteAtCloser.WriteAt mw p off).1,
                Returned (errors.Wrap (MultiWriteAtCloser.WriteAt mw p off).2
                            "unable to copy to log file"))
        ∧ mock.data r' = drop (Z.to_nat N) (mock.data r).
Proof.
  intros HN Hdata Hfuel p.
  destruct (getBuf_length pooled N HN) as (buf0 & Hbuf & Hlen0).
  destruct (readLoop_Source fuel r buf0 (Z.to_nat N) 0 None) as (r' & err' & Hloop & Hrest);
    [done|lia|lia|lia|by left|].
  rewrite Nat.sub_0_r, take_0 in Hloop. cbn [app] in Hloop. rewrite Nat.sub_0_r in Hrest.
  exists r'. split; [|done].
  unfold MultiWriteAtCloser.CopyNAt. rewrite Hbuf. unfold io.ReadAtLeast.
  rewrite Hlen0, (decide_False (P := (_ < _)%nat)) by lia.
  rewrite Hloop, (decide_True (P := (_ ≤ _)%nat)) by lia.
  fold p. by destruct (MultiWriteAtCloser.WriteAt mw p off).
Qed.

Lemma readLoop_Source_short (fuel : nat) :
  ∀ (r : mock.Source) (buf : list byte) (L n : nat) (err : option error),
    length buf = L → (length (mock.data r) < L - n)%nat →
    (length (mock.data r) < fuel)%nat ∨ err ≠ None →
    err = None ∨ (err = Some (default EOF (mock.ending r)) ∧ mock.data r = []) →
    ∃ r' buf',
      io.readLoop fuel r buf n L err
      = Some (r', buf', (n + length (mock.data r))%nat, Some (default EOF (mock.ending r)))
      ∧ mock.data r' = [].
Proof.
  induction fuel as [|fuel IH]; intros r buf L n err Hlen Hdata Hfuel Herr.
  - destruct Hfuel as [?|Hsome]; [lia|].
    destruct Herr as [->|[-> Hnil]]; [done|].
    exists r, buf. cbn [io.readLoop]. destruct (decide _) as [[_ ?]|_]; [done|].
    rewrite Hnil. cbn [length]. by rewrite Nat.add_0_r.
  - cbn [io.readLoop]. destruct (decide _) as [[Hlt Hnone]|Hstop].
    + subst err. destruct Hfuel as [Hfuel|?]; [|done].
      destruct (mock.data r) as [|b l] eqn:Hd.
      * cbn [io.Read mock.Source_Reader]. unfold mock.Source_Read. rewrite Hd, Hlen.
        destruct (L - n)%nat as [|k] eqn:Hk; [lia|]. cbn [take length].
        destruct (IH r (io.fill buf n []) L (n + 0)%nat (Some (default EOF (mock.ending r))))
          as (r' & buf' & Hrun & Hrest).
        -- rewrite fill_length; lia.
        -- rewrite Hd. cbn [length]. lia.
        -- by right.
        -- by right.
        -- rewrite Hd in Hrun. cbn [length] in Hrun.
           rewrite (Nat.add_0_r (n + 0)) in Hrun. eauto.
      * destruct (Source_Read_some r (L - n)) as (m & Hm & Hread); [lia|by rewrite Hd|].
        rewrite Hlen, Hread, Hd.
        set (r1 := {| mock.data := drop m (b :: l) |}).
        set (err1 := if mock.eager r && _ then _ else None).
        destruct (IH r1 (io.fill buf n (take m (b :: l))) L
                    (n + length (take (L - n) (take m (b :: l))))%nat err1)
          as (r' & buf' & Hrun & Hrest).
        -- rewrite fill_length; lia.
        -- subst r1. cbn [mock.data]. rewrite length_drop, !length_take.
           cbn [length] in *. lia.
        -- subst r1. cbn [mock.data]. left. rewrite length_drop. cbn [length] in *. lia.
        -- subst err1 r1. cbn [mock.data mock.ending]. destruct (mock.eager r); [|by left].
           cbn [andb]. destruct (bool_decide (length (b :: l) ≤ m)%nat) eqn:Hall; [|by left].
           apply bool_decide_eq_true in Hall.
           right. split; [done|]. by rewrite drop_ge by lia.
        -- exists r', buf'. split; [|done]. rewrite Hrun. subst r1. cbn [mock.data mock.ending].
           do 3 f_equal. rewrite length_drop, !length_take. cbn [length] in *. lia.
    + destruct Herr as [->|[-> Hnil]].
      { exfalso. apply Hstop. split; [lia|done]. }
      exists r, buf. rewrite Hnil. cbn [length]. by rewrite Nat.add_0_r.
Qed.

(** From a stream that ends before [N] bytes, [CopyNAt(r, N, off)]
    takes every byte the stream has and writes none of them: no writer
    is touched.  The error it wraps is the stream's own when the stream
    was empty or ended with an error of its own, and
    [io.ErrUnexpectedEOF] when some bytes came before [io.EOF]. *)
Theorem CopyNAt_short_stream
    (fuel : nat) (pooled : list byte) (mw : list W) (r : mock.Source) (N off : Z) :
  (length (mock.data r) < Z.to_nat N)%nat → (Z.to_nat N ≤ fuel)%nat →
  let ending := default EOF (mock.ending r) in
  let e := if bool_decide (mock.data r ≠ [] ∧ ending = EOF)
           then ErrUnexpectedEOF else ending in
  ∃ r', MultiWriteAtCloser.CopyNAt fuel pooled mw r N off
        = Some (r', mw, Returned (Some (Wrap e "unable to read input")))
        ∧ mock.data r' = [].
Proof.
  intros Hdata Hfuel ending e.
  destruct (getBuf_length pooled N) as (buf0 & Hbuf & Hlen0); [lia|].
  destruct (readLoop_Source_short fuel r buf0 (Z.to_nat N) 0 None)
    as (r' & buf' & Hloop & Hrest); [done|lia|left; lia|by left|].
  exists r'. split; [|done]. cbn [Nat.add] in Hloop.
  unfold MultiWriteAtCloser.CopyNAt. rewrite Hbuf. unfold io.ReadAtLeast.
  rewrite Hlen0, (decide_False (P := (_ < _)%nat)) by lia.
  rewrite Hloop, (decide_False (P := (_ ≤ _)%nat)) by lia.
  fold ending. subst e. cbn [errors.Wrap].
  destruct (mock.data r) as [|b l] eqn:Hd.
  - rewrite decide_False by (cbn; intros [? _]; lia).
    rewrite bool_decide_eq_false_2 by (by intros [? _]). done.
  - destruct (decide (ending = EOF)) as [Heof|Hne].
    + rewrite decide_True by (split; [cbn; lia|by rewrite Heof]).
      rewrite bool_decide_eq_true_2 by done. done.
    + rewrite decide_False by (intros [_ [= ?]]; done).
      rewrite bool_decide_eq_false_2 by (by intros [_ ?]). done.
Qed.

End stream.

(** * More on topic names *)

Section topic_names.
Context {HU : strings.Unicode}.

Import filepath.

Lemma getTopic_cases (r : http.Request) :
  server.getTopic r = ("", Some ErrInvalidTopic)
  ∨ ∃ topic, server.getTopic r = (topic, None) ∧ topic ≠ "" ∧ topic ≠ "."
      ∧ topic = Clean (strings.ToLower (strings.TrimPrefix (http.URL_Path r) "/topics/")).
Proof.
  unfold server.getTopic.
  destruct (bool_decide (_ = "")) eqn:He; [by left|].
  destruct (bool_decide (_ = ".")) eqn:Hd; [by left|].
  right. eexists. apply bool_decide_eq_false in He, Hd. by repeat split.
Qed.

Lemma getTopic_accepted (Hlaws : LowerLaws) (r : http.Request) (topic : string) :
  server.getTopic r = (topic, None) →
  lowered topic ∧ Clean topic = topic ∧ topic ≠ "" ∧ topic ≠ ".".
Proof.
  intros Hrun. destruct (getTopic_cases r) as [Hbad|(t & Hok & Hne & Hnd & Hdef)];
    [congruence|].
  rewrite Hok in Hrun. injection Hrun as <-.
  split; [rewrite Hdef; apply (lowered_Clean Hlaws), (ToLower_idem Hlaws)|].
  split; [rewrite Hdef; apply Clean_idempotent|done].
Qed.

(** A topic that [getTopic] returned is accepted again, unchanged, when
    it is sent back as the path [/topics/<topic>]. *)
Theorem getTopic_accepts_its_results (Hlaws : LowerLaws)
    (r r' : http.Request) (topic : string) :
  server.getTopic r = (topic, None) →
  http.URL_Path r' = "/topics/" +:+ topic →
  server.getTopic r' = (topic, None).
Proof.
  intros Hrun Hpath.
  destruct (getTopic_accepted Hlaws r topic Hrun) as (Hlow & Hclean & Hne & Hnd).
  unfold server.getTopic. rewrite Hpath, TrimPrefix_app.
  unfold lowered in Hlow. rewrite Hlow, Hclean.
  by rewrite !bool_decide_eq_false_2.
Qed.

Lemma rev_replicate (k : nat) (x : string) : rev (replicate k x) = replicate k x.
Proof.
  induction k as [|k IH]; [done|]. cbn [replicate rev]. rewrite IH. clear.
  induction k as [|k IH]; [done|]. cbn. by rewrite IH.
Qed.

(** The shape of an accepted topic: plain elements (not empty, not [.],
    not [..], without a slash) joined by single slashes, after either a
    leading slash or a run of [..] elements.  So [..] occurs only at the
    start, and a topic may be rooted or start with [..]. *)
Theorem getTopic_shape (r : http.Request) (topic : string) :
  server.getTopic r = (topic, None) →
  ∃ (isRooted : bool) (k : nat) (names : list string),
    Forall plain names
    ∧ (isRooted = true → k = 0%nat)
    ∧ (isRooted = false → (0 < k + length names)%nat)
    ∧ topic = (if isRooted then "/" else "")
              +:+ strings.Join (replicate k ".." ++ names) "/".
Proof.
  intros Hrun. destruct (getTopic_cases r) as [Hbad|(t & Hok & Hne & Hnd & Hdef)];
    [congruence|].
  rewrite Hok in Hrun. injection Hrun as <-.
  set (path := strings.ToLower _) in Hdef.
  destruct (decide (path = "")) as [Hempty|Hpath].
  { rewrite Hempty in Hdef. by rewrite Hdef in Hnd. }
  rewrite Clean_unfold in Hdef by done.
  destruct (fold_cleaned (rooted path) (elements path) ([], 0%nat))
    as (names & Hnames & Hout & Hroot).
  { apply elements_noSep. }
  { exists []. by repeat split. }
  rewrite Hout in Hdef. set (k := (fold_left _ _ _).2) in *.
  exists (rooted path), k, (rev names).
  split; [by apply Forall_rev|]. split; [done|].
  unfold rendered in Hdef. rewrite rev_app_distr, rev_replicate in Hdef.
  destruct (rooted path).
  - split; [done|]. by rewrite Hdef.
  - destruct (decide _) as [Hnil|Hnil] in Hdef; [by rewrite Hdef in Hnd|].
    split; [|by rewrite Hdef]. intros _.
    rewrite length_rev. destruct names as [|x names]; [|cbn; lia].
    destruct k as [|k]; [done|lia].
Qed.

End topic_names.

(** * More on the handlers *)

Section canonical_keys.

Lemma canonical_char (u : bool) (c : ascii) :
  let f := λ c, if u && strings.isLower c then strings.upper c
                else if negb u && strings.isUpper c then strings.lower c
                else c in
  f (f c) = f c
  ∧ textproto.validHeaderFieldByte (f c) = textproto.validHeaderFieldByte c.
Proof. destruct u, c as [[] [] [] [] [] [] [] []]; vm_compute; done. Qed.

Lemma canonical_idem (s : string) :
  ∀ u, textproto.canonical u (textproto.canonical u s) = textproto.canonical u s.
Proof.
  induction s as [|c s IH]; intros u; [done|].
  cbn [textproto.canonical]. destruct (canonical_char u c) as [-> _]. by rewrite IH.
Qed.

Lemma allValid_canonical (s : string) :
  ∀ u, textproto.allValid (textproto.canonical u s) = textproto.allValid s.
Proof.
  induction s as [|c s IH]; intros u; [done|].
  cbn [textproto.canonical textproto.allValid].
  destruct (canonical_char u c) as [_ ->]. by rewrite IH.
Qed.

Lemma CanonicalHeaderKey_idem (s : string) :
  http.CanonicalHeaderKey (http.CanonicalHeaderKey s) = http.CanonicalHeaderKey s.
Proof.
  unfold http.CanonicalHeaderKey, textproto.CanonicalMIMEHeaderKey.
  destruct (textproto.allValid s) eqn:Hs.
  - by rewrite allValid_canonical, Hs, canonical_idem.
  - by rewrite Hs.
Qed.

End canonical_keys.

Section handlers_more.
Context {Q : Type} {HQ : server.Queue Q} {HU : strings.Unicode} {HC : json.Codec}.

Lemma allowedHeaders_canonical (values : list string) :
  Forall (λ h, h ≠ "" ∧ http.CanonicalHeaderKey h = h) (server.allowedHeaders values).
Proof.
  induction values as [|v values IH]; [constructor|].
  cbn [server.allowedHeaders]. case_bool_decide as Hempty; [done|].
  constructor; [|done]. split; [done|apply CanonicalHeaderKey_idem].
Qed.

(** Given a response without [Access-Control-Allow-Headers], what
    [HandleOptions] leaves under that key is never an empty list, and
    every name in it is not empty and is in canonical form. *)
Theorem HandleOptions_allows_canonical_names
    (s : server.Server Q) (w : http.ResponseWriter) (r : http.Request)
    (allowed : list string) :
  http.header w !! "Access-Control-Allow-Headers" = None →
  http.header (server.HandleOptions s w r).2 !! "Access-Control-Allow-Headers"
  = Some allowed →
  allowed ≠ [] ∧ Forall (λ h, h ≠ "" ∧ http.CanonicalHeaderKey h = h) allowed.
Proof.
  intros Hfresh. unfold server.HandleOptions. cbn [snd].
  set (values := http.Header_Values _ _).
  set (method := http.Header_Get _ _).
  pose proof (allowedHeaders_canonical values) as Hall.
  assert (Hkey : http.CanonicalHeaderKey "Access-Control-Allow-Methods"
                 = "Access-Control-Allow-Methods") by (vm_compute; reflexivity).
  assert (Hheader : ∀ w0,
            http.header (http.WriteHeader
                           (http.SetHeader w0 "Access-Control-Allow-Methods" method)
                           http.StatusOK)
            !! "Access-Control-Allow-Headers"
            = http.header w0 !! "Access-Control-Allow-Headers").
  { intros w0. unfold http.WriteHeader, http.SetHeader, http.Header_Set.
    rewrite Hkey. cbn [http.wroteHeader].
    destruct (http.wroteHeader w0); cbn [http.header]; by rewrite lookup_insert_ne. }
  rewrite Hheader.
  destruct (server.allowedHeaders values) as [|h hs] eqn:Hallowed.
  - rewrite bool_decide_eq_false_2 by (cbn [length]; lia). congruence.
  - rewrite bool_decide_eq_true_2 by (cbn [length]; lia).
    cbn [http.setHeader http.header]. rewrite lookup_insert_eq.
    intros [= <-]. split; [discriminate|exact Hall].
Qed.

(** [HandleModifyTopic] reports a missing body before it looks at the
    topic, and an invalid topic before it decodes the body.  It never
    records a metric, and it changes the queue only by one call of
    [ModifyTopic], made when body, topic and JSON are valid and
    [truncate] is not 0. *)
Theorem HandleModifyTopic_validates_first
    (s : server.Server Q) (w : http.ResponseWriter) (r : http.Request) :
  (http.Body r = None →
   server.HandleModifyTopic s w r = (s, headers.SetError w ErrInvalidBodyMissing))
  ∧ (http.Body r ≠ None → (server.getTopic r).2 ≠ None →
     server.HandleModifyTopic s w r = (s, headers.SetError w ErrInvalidTopic))
  ∧ (∀ b, http.Body r = Some b → (server.getTopic r).2 = None →
       json.decodeModifyRequest b = None →
       server.HandleModifyTopic s w r = (s, headers.SetError w ErrInvalidBodyJSON))
  ∧ server.metrics (server.HandleModifyTopic s w r).1 = server.metrics s
  ∧ ((server.HandleModifyTopic s w r).1 = s
     ∨ ∃ b topic request,
         http.Body r = Some b ∧ server.getTopic r = (topic, None)
         ∧ json.decodeModifyRequest b = Some request
         ∧ headers.Truncate request ≠ 0
         ∧ (server.HandleModifyTopic s w r).1
           = server.withQueue s (server.ModifyTopic (server.q s) topic request).1).
Proof.
  unfold server.HandleModifyTopic.
  destruct (http.Body r) as [b|]; [|by repeat split; auto].
  destruct (getTopic_cases r) as [Hbad|(topic & Hok & _)].
  { rewrite Hbad. cbn [snd]. repeat split; auto; try done. }
  rewrite Hok. cbn [snd].
  split; [done|]. split; [done|]. split.
  { intros b' [= <-] _ ->. done. }
  destruct (json.decodeModifyRequest b) as [request|] eqn:Hdec; [|by split; [|left]].
  case_bool_decide as Hzero; [by split; [|left]|].
  destruct (server.ModifyTopic (server.q s) topic request) as [q' [info [e|]]] eqn:Hmod;
    cbn [fst snd]; (split; [done|]); right; exists b, topic, request; by rewrite Hmod.
Qed.

Lemma ParseInt_range (x : string) (n : Z) :
  strconv.ParseInt x = inl n → - 2 ^ 63 ≤ n < 2 ^ 63.
Proof.
  unfold strconv.ParseInt. destruct x as [|c x]; [discriminate|]. cbv zeta.
  destruct (strconv.ParseUint _) as [un|e] eqn:Hun; [|discriminate].
  assert (0 ≤ un).
  { unfold strconv.ParseUint in Hun.
    destruct (if _ || _ then x else String c x); [discriminate|].
    by apply parseDigits_nonneg in Hun. }
  destruct (bool_decide (c = "-"%char)); cbn [negb andb];
    repeat case_bool_decide; intros [= <-]; lia.
Qed.

(** [HandleConsume] either ends with one of its three validation errors
    and leaves the server and the queue as they were, or calls
    [Consume] once, with a topic that [getTopic] accepted, an id within
    [int64], and a limit that is the server's default or a positive
    [int64]. *)
Theorem HandleConsume_validates_then_consumes
    (s : server.Server Q) (w : http.ResponseWriter) (r : http.Request) :
  (∃ e, e ∈ [ErrInvalidTopic; ErrInvalidMessageID; ErrInvalidMessageLimit]
        ∧ server.HandleConsume s w r = (s, headers.SetError w e))
  ∨ (∃ topic id limit,
       server.getTopic r = (topic, None)
       ∧ - 2 ^ 63 ≤ id < 2 ^ 63
       ∧ (limit = server.defaultConsumeLimit s ∨ 0 < limit < 2 ^ 63)
       ∧ server.HandleConsume s w r
         = server.consumed s (server.Consume (server.q s) topic id limit w)).
Proof.
  unfold server.HandleConsume.
  destruct (getTopic_cases r) as [Hbad|(topic & Hok & _)].
  { rewrite Hbad. left. exists ErrInvalidTopic. split; [rewrite !elem_of_cons; tauto|done]. }
  rewrite Hok.
  destruct (strconv.ParseInt (url.Get _ "id")) as [id|e] eqn:Hid.
  2:{ left. exists ErrInvalidMessageID. split; [rewrite !elem_of_cons; tauto|done]. }
  apply ParseInt_range in Hid.
  set (queryLimit := url.Get _ "limit").
  destruct (decide (queryLimit = "")) as [->|Hne].
  { rewrite consumeLimit_empty. right. exists topic, id, (server.defaultConsumeLimit s). auto. }
  destruct (minus_or_not queryLimit) as [[rest ->]|Hnominus].
  { rewrite consumeLimit_minus. right. exists topic, id, (server.defaultConsumeLimit s). auto. }
  rewrite consumeLimit_parse by done.
  destruct (strconv.ParseInt queryLimit) as [n|e] eqn:Hparse.
  - apply ParseInt_range in Hparse. right. eexists topic, id, _.
    split; [done|]. split; [done|]. split; [|done].
    case_bool_decide; [by left|right; lia].
  - left. exists ErrInvalidMessageLimit. split; [rewrite !elem_of_cons; tauto|done].
Qed.

(** After [Consume]: an error of the queue is reported with [SetError]
    on the writer that the queue has used, and nothing is recorded; a
    result with messages is recorded as one [ConsumeMsgs] and the
    response is left exactly as the queue wrote it. *)
Theorem HandleConsume_after_consume
    (s : server.Server Q) (w : http.ResponseWriter) (r : http.Request)
    (topic : string) (id limit : Z) (q' : Q) (w1 : http.ResponseWriter)
    (count : Z) (err : option error) :
  server.getTopic r = (topic, None) →
  strconv.ParseInt (url.Get (http.URL_Query r) "id") = inl id →
  server.consumeLimit s (url.Get (http.URL_Query r) "limit") = inl limit →
  server.Consume (server.q s) topic id limit w = (q', w1, (count, err)) →
  (∀ e, err = Some e →
     server.HandleConsume s w r = (server.withQueue s q', headers.SetError w1 e))
  ∧ (err = None → count ≠ 0 →
     server.HandleConsume s w r
     = (server.record (server.withQueue s q') (server.ConsumeMsgs count), w1)
     ∧ server.metrics (server.HandleConsume s w r).1
       = (server.metrics s ++ [server.ConsumeMsgs count])%list).
Proof.
  intros Htopic Hid Hlimit Hconsume. unfold server.HandleConsume.
  rewrite Htopic, Hid, Hlimit, Hconsume. cbn [server.consumed]. split.
  - by intros e ->.
  - intros -> Hcount. by rewrite bool_decide_eq_false_2.
Qed.

End handlers_more.

(** * The handlers that create, delete and produce *)

Section topic_handlers.
Context {Q : Type} {HQ : topics.Queue Q} {HU : strings.Unicode} {HS : topics.Sizes}.
Context (Hlaws : LowerLaws).

(** [HandleCreateTopic] either reports an invalid topic and leaves the
    queue alone, or calls [CreateTopic] once, with a topic that is
    lowered and cleaned; it answers 201 with content type [text/plain]
    when the queue returns nil, and reports the queue's error
    otherwise. *)
Theorem HandleCreateTopic_creates_normalized
    (s : server.Server Q) (w : http.ResponseWriter) (r : http.Request) :
  topics.HandleCreateTopic s w r = (s, headers.SetError w ErrInvalidTopic)
  ∨ ∃ topic,
      server.getTopic r = (topic, None)
      ∧ lowered topic ∧ filepath.Clean topic = topic
      ∧ (topics.HandleCreateTopic s w r).1
        = server.withQueue s (topics.CreateTopic (server.q s) topic).1
      ∧ (topics.HandleCreateTopic s w r).2
        = match (topics.CreateTopic (server.q s) topic).2 with
          | Some e => headers.SetError w e
          | None => http.WriteHeader (http.setHeader w "Content-Type" ["text/plain"]) 201
          end.
Proof.
  unfold topics.HandleCreateTopic.
  destruct (getTopic_cases r) as [Hbad|(topic & Hok & _)]; [left; by rewrite Hbad|].
  right. exists topic. rewrite Hok.
  destruct (getTopic_accepted Hlaws r topic Hok) as (Hlow & Hclean & _).
  destruct (topics.CreateTopic (server.q s) topic) as [q' [e|]]; by repeat split.
Qed.

(** [HandleDeleteTopic] either reports an invalid topic and leaves the
    queue alone, or calls [DeleteTopic] once, with a topic that is
    lowered and cleaned; it answers 204 with content type [text/plain]
    when the queue returns nil, and reports the queue's error
    otherwise. *)
Theorem HandleDeleteTopic_deletes_normalized
    (s : server.Server Q) (w : http.ResponseWriter) (r : http.Request) :
  topics.HandleDeleteTopic s w r = (s, headers.SetError w ErrInvalidTopic)
  ∨ ∃ topic,
      server.getTopic r = (topic, None)
      ∧ lowered topic ∧ filepath.Clean topic = topic
      ∧ (topics.HandleDeleteTopic s w r).1
        = server.withQueue s (topics.DeleteTopic (server.q s) topic).1
      ∧ (topics.HandleDeleteTopic s w r).2
        = match (topics.DeleteTopic (server.q s) topic).2 with
          | Some e => headers.SetError w e
          | None => http.WriteHeader (http.setHeader w "Content-Type" ["text/plain"]) 204
          end.
Proof.
  unfold topics.HandleDeleteTopic.
  destruct (getTopic_cases r) as [Hbad|(topic & Hok & _)]; [left; by rewrite Hbad|].
  right. exists topic. rewrite Hok.
  destruct (getTopic_accepted Hlaws r topic Hok) as (Hlow & Hclean & _).
  destruct (topics.DeleteTopic (server.q s) topic) as [q' [e|]]; by repeat split.
Qed.

(** [HandleProduce] reports a missing body first, then an invalid
    topic, then the error of [ReadSizes], each time without calling the
    queue or recording a metric.  Otherwise it calls [Produce] once,
    with a lowered and cleaned topic and a time stamp within [uint64];
    only when [Produce] returns nil does it record [ProduceMsgs] with
    the number of sizes, and answer 204. *)
Theorem HandleProduce_validates_then_produces
    (now : Z) (s : server.Server Q) (w : http.ResponseWriter) (r : http.Request) :
  (∃ e, topics.HandleProduce now s w r = (s, headers.SetError w e)
        ∧ (http.Body r = None → e = ErrInvalidBodyMissing)
        ∧ (http.Body r ≠ None → (server.getTopic r).2 ≠ None → e = ErrInvalidTopic)
        ∧ (http.Body r ≠ None → (server.getTopic r).2 = None →
           topics.ReadSizes (http.Header r) = inr e))
  ∨ ∃ b topic sizes,
      http.Body r = Some b ∧ server.getTopic r = (topic, None)
      ∧ lowered topic ∧ filepath.Clean topic = topic
      ∧ topics.ReadSizes (http.Header r) = inl sizes
      ∧ 0 ≤ now `mod` 2 ^ 64 < 2 ^ 64
      ∧ let produced := topics.Produce (server.q s) topic sizes (now `mod` 2 ^ 64) b in
        server.q (topics.HandleProduce now s w r).1 = produced.1
        ∧ server.metrics (topics.HandleProduce now s w r).1
          = match produced.2 with
            | Some _ => server.metrics s
            | None => (server.metrics s
                       ++ [server.ProduceMsgs (Z.of_nat (length sizes))])%list
            end
        ∧ (topics.HandleProduce now s w r).2
          = match produced.2 with
            | Some e => headers.SetError w e
            | None => http.WriteHeader (http.setHeader w "Content-Type" ["text/plain"]) 204
            end.
Proof.
  unfold topics.HandleProduce.
  destruct (http.Body r) as [b|].
  2:{ left. exists ErrInvalidBodyMissing. by repeat split. }
  destruct (getTopic_cases r) as [Hbad|(topic & Hok & _)].
  { left. exists ErrInvalidTopic. rewrite Hbad. cbn [snd]. by repeat split. }
  rewrite Hok. cbn [snd].
  destruct (topics.ReadSizes (http.Header r)) as [sizes|e] eqn:Hsizes.
  2:{ left. exists e. by repeat split. }
  right. exists b, topic, sizes.
  destruct (getTopic_accepted Hlaws r topic Hok) as (Hlow & Hclean & _).
  do 5 (split; [done|]). split; [by apply Z.mod_pos_bound|].
  cbn zeta.
  destruct (topics.Produce (server.q s) topic sizes (now `mod` 2 ^ 64) b) as [q' [e|]];
    by repeat split.
Qed.

End topic_handlers.

(** * The options of the server *)

Section server_options.
Context {Q M Mw : Type} {HQ : options.Queue Q}.
Context (noOpMetrics : M) (filequeue_New : bool → Z → list string → Q + error).

Lemma refused_dec (x : setting Q M Mw) : refused x ∨ ¬ refused x.
Proof.
  destruct x as [[q|]|[|d dirs]|[m|]|n|mws|cache|entries]; cbn;
    first [by left | by right | right; tauto
          | destruct (decide (entries < 0)); [by left|by right]].
Qed.

Lemma first_refused (xs : list (setting Q M Mw)) :
  Forall (λ x, ¬ refused x) xs
  ∨ ∃ ok x rest, xs = (ok ++ x :: rest)%list ∧ Forall (λ x, ¬ refused x) ok ∧ refused x.
Proof.
  induction xs as [|x xs IH]; [by left|].
  destruct (refused_dec x) as [Hx|Hx].
  { right. exists [], x, xs. by repeat split. }
  destruct IH as [Hall|(ok & y & rest & -> & Hok & Hy)]; [left; by constructor|].
  right. exists (x :: ok), y, rest. repeat split; [|done]. by constructor.
Qed.

Lemma lastOf_cons {A : Type} (f : setting Q M Mw → option A) (x : setting Q M Mw) (xs : list (setting Q M Mw))
    (d : A) :
  lastOf f (x :: xs) d = lastOf f xs (default d (f x)).
Proof.
  unfold lastOf. cbn. destruct (f x) as [y|]; [|done].
  rewrite last_cons. by destruct (last _).
Qed.

Lemma last_omap_cons {A : Type} (f : setting Q M Mw → option A) (x : setting Q M Mw) (xs : list (setting Q M Mw))
    (d : option A) :
  match last (omap f (x :: xs)) with Some y => Some y | None => d end
  = match last (omap f xs) with
    | Some y => Some y
    | None => match f x with Some y => Some y | None => d end
    end.
Proof.
  cbn. destruct (f x) as [y|]; [|done]. rewrite last_cons. by destruct (last _).
Qed.

Lemma option_of_accepts (x : setting Q M Mw) (s : options.Server Q M Mw) :
  ¬ refused x → option_of x s = (settled [x] s, None).
Proof.
  intros Hx. destruct x as [[q0|]|[|d ds]|[m0|]|n|mws|cache|entries];
    cbn in Hx; try done; destruct s; unfold settled, lastOf; cbn;
    rewrite ?app_nil_r; try done.
  unfold options.WithFileEntries. by rewrite bool_decide_eq_false_2.
Qed.

Lemma option_of_refuses (x : setting Q M Mw) (s : options.Server Q M Mw) :
  refused x →
  ∃ msg, option_of x s = (s, Some (New msg))
    ∧ msg = match x with
            | Queue_ _ => "queue cannot be nil"
            | Dirs_ _ => "at least one directory must be given"
            | Metrics_ _ => "metrics cannot be nil"
            | _ => "invalid FileEntries, value must not be negative"
            end.
Proof.
  destruct x as [[q|]|[|d dirs]|[m|]|n|mws|cache|entries]; cbn; try done; eauto.
  intros Hneg. eexists. split; [|done]. unfold options.WithFileEntries.
  by rewrite bool_decide_eq_true_2.
Qed.

Lemma settled_cons (x : setting Q M Mw) (xs : list (setting Q M Mw)) (s : options.Server Q M Mw) :
  settled xs (settled [x] s) = settled (x :: xs) s.
Proof.
  unfold settled at 1 3. cbn [options.router options.q options.qFileCache
    options.qFileEntries options.defaultLimit options.dirs options.metrics
    options.isClosed options.middlewares].
  rewrite !lastOf_cons.
  rewrite (last_omap_cons asQueue x xs (options.q s)).
  rewrite (last_omap_cons asMetrics x xs (options.metrics s)).
  unfold settled, lastOf. cbn [map concat omap list_omap last default options.router
    options.q options.qFileCache options.qFileEntries options.defaultLimit
    options.dirs options.metrics options.isClosed options.middlewares].
  f_equal.
  - by destruct (asQueue x).
  - by destruct (asCaching x).
  - by destruct (asEntries x).
  - by destruct (asLimit x).
  - by destruct (asDirs x).
  - by destruct (asMetrics x).
  - by rewrite app_nil_r, <- app_assoc.
Qed.

Lemma applyOptions_settled (xs : list (setting Q M Mw)) :
  ∀ s : options.Server Q M Mw, Forall (λ x, ¬ refused x) xs →
    options.applyOptions (map option_of xs) s = inl (settled xs s).
Proof.
  induction xs as [|x xs IH]; intros s Hxs.
  - destruct s. unfold settled, lastOf. cbn. by rewrite app_nil_r.
  - inversion Hxs as [|? ? Hx Hrest]; subst. cbn [map options.applyOptions].
    rewrite option_of_accepts by done. rewrite IH by done. by rewrite settled_cons.
Qed.

Lemma applyOptions_refused (ok rest : list (setting Q M Mw)) (x : setting Q M Mw) (s : options.Server Q M Mw) :
  Forall (λ x, ¬ refused x) ok → refused x →
  ∃ msg, options.applyOptions (map option_of (ok ++ x :: rest)) s
         = inr (Wrap (New msg) "invalid option")
    ∧ msg = match x with
            | Queue_ _ => "queue cannot be nil"
            | Dirs_ _ => "at least one directory must be given"
            | Metrics_ _ => "metrics cannot be nil"
            | _ => "invalid FileEntries, value must not be negative"
            end.
Proof.
  revert s. induction ok as [|y ok IH]; intros s Hok Hx.
  - cbn [app map options.applyOptions].
    destruct (option_of_refuses x s Hx) as (msg & -> & Hmsg). eauto.
  - inversion Hok; subst. cbn [app map options.applyOptions].
    rewrite option_of_accepts by done. by apply IH.
Qed.

(** [NewServer] fails at the first option that is refused, with that
    option's error wrapped as invalid option, whatever options follow
    and without calling [filequeue.New]. *)
Theorem NewServer_first_refused_option
    (ok rest : list (setting Q M Mw)) (x : setting Q M Mw) :
  Forall (λ x, ¬ refused x) ok → refused x →
  ∃ msg, options.NewServer noOpMetrics filequeue_New (map option_of (ok ++ x :: rest))
         = inr (Wrap (New msg) "invalid option")
    ∧ msg = match x with
            | Queue_ _ => "queue cannot be nil"
            | Dirs_ _ => "at least one directory must be given"
            | Metrics_ _ => "metrics cannot be nil"
            | _ => "invalid FileEntries, value must not be negative"
            end.
Proof.
  intros Hok Hx. unfold options.NewServer.
  destruct (applyOptions_refused ok rest x (options.initial noOpMetrics) Hok Hx)
    as (msg & -> & Hmsg). eauto.
Qed.

Lemma NewServer_ok (xs : list (setting Q M Mw)) (s : options.Server Q M Mw) :
  options.NewServer noOpMetrics filequeue_New (map option_of xs) = inl s →
  Forall (λ x, ¬ refused x) xs
  ∧ ∃ q',
      match options.q (settled xs (options.initial noOpMetrics)) with
      | Some q0 => q' = q0
      | None =>
          filequeue_New
            (options.qFileCache (settled xs (options.initial noOpMetrics)))
            (options.qFileEntries (settled xs (options.initial noOpMetrics)))
            (options.dirs (settled xs (options.initial noOpMetrics))) = inl q'
      end
      ∧ s = {| options.router :=
                 {| options.used :=
                      options.middlewares (settled xs (options.initial noOpMetrics));
                    options.raw := Some (options.RootDir q');
                    options.routes := options.topicRoutes |};
               options.q := Some q';
               options.qFileCache :=
                 options.qFileCache (settled xs (options.initial noOpMetrics));
               options.qFileEntries :=
                 options.qFileEntries (settled xs (options.initial noOpMetrics));
               options.defaultLimit :=
                 options.defaultLimit (settled xs (options.initial noOpMetrics));
               options.dirs := options.dirs (settled xs (options.initial noOpMetrics));
               options.metrics :=
                 options.metrics (settled xs (options.initial noOpMetrics));
               options.isClosed := false;
               options.middlewares :=
                 options.middlewares (settled xs (options.initial noOpMetrics)) |}.
Proof.
  intros Hnew. destruct (first_refused xs) as [Hall|(ok & x & rest & -> & Hok & Hx)].
  2:{ unfold options.NewServer in Hnew.
      destruct (applyOptions_refused ok rest x (options.initial noOpMetrics) Hok Hx)
        as (msg & Hfail & _).
      rewrite Hfail in Hnew. discriminate. }
  split; [done|]. unfold options.NewServer in Hnew.
  rewrite applyOptions_settled in Hnew by done.
  set (s1 := settled xs _) in *.
  assert (Hused : (if bool_decide (0 < length (options.middlewares s1))%nat
                   then options.middlewares s1 else []) = options.middlewares s1).
  { case_bool_decide; [done|]. destruct (options.middlewares s1); [done|cbn in *; lia]. }
  rewrite Hused in Hnew.
  destruct (options.q s1) as [q0|] eqn:Hq.
  - injection Hnew as <-. by exists q0.
  - destruct (filequeue_New _ _ _) as [q'|e] eqn:Hcreate; [|discriminate].
    injection Hnew as <-. by exists q'.
Qed.

Lemma lastOf_ind {A : Type} (P : A → Prop) (f : setting Q M Mw → option A)
    (xs : list (setting Q M Mw)) :
  ∀ d, P d → Forall (λ x, ∀ y, f x = Some y → P y) xs → P (lastOf f xs d).
Proof.
  induction xs as [|x xs IH]; intros d Hd Hxs; [done|].
  inversion Hxs as [|? ? Hx Hrest]; subst. rewrite lastOf_cons. apply IH; [|done].
  destruct (f x) as [y|] eqn:Hfx; [by apply Hx|done].
Qed.

(** When [NewServer] succeeds, every field holds the value of the last
    option given for it, or its start value (cache on, 5000 entries,
    limit -1, the directory [.haraqa], no-op metrics); the middlewares
    of all [WithMiddleware] options are installed in the order given;
    and [filequeue.New] is called, with the final cache, entries and
    directories, only when no queue was given. *)
Theorem NewServer_last_setting_wins
    (xs : list (setting Q M Mw)) (s : options.Server Q M Mw) :
  options.NewServer noOpMetrics filequeue_New (map option_of xs) = inl s →
  options.qFileCache s = lastOf asCaching xs true
  ∧ options.qFileEntries s = lastOf asEntries xs 5000
  ∧ options.defaultLimit s = lastOf (λ x, storedLimit <$> asLimit x) xs (-1)
  ∧ options.dirs s = lastOf asDirs xs [".haraqa"]
  ∧ options.metrics s = Some (lastOf asMetrics xs noOpMetrics)
  ∧ options.middlewares s = concat (map asMiddleware xs)
  ∧ options.used (options.router s) = concat (map asMiddleware xs)
  ∧ match last (omap asQueue xs) with
    | Some q' => options.q s = Some q'
    | None => ∃ q', filequeue_New (options.qFileCache s) (options.qFileEntries s)
                      (options.dirs s) = inl q'
                    ∧ options.q s = Some q'
    end.
Proof.
  intros Hnew. destruct (NewServer_ok xs s Hnew) as (_ & q' & Hq & ->).
  cbn [options.qFileCache options.qFileEntries options.defaultLimit options.dirs
       options.metrics options.middlewares options.router options.used options.q
       settled options.initial] in *.
  do 4 (split; [done|]). split.
  { unfold lastOf. by destruct (last (omap asMetrics xs)). }
  do 2 (split; [done|]).
  destruct (last (omap asQueue xs)) as [q0|]; [by rewrite Hq|by exists q'].
Qed.

(** A server that [NewServer] returns has a queue and metrics, is not
    closed, has at least one directory and a number of entries that is
    not negative, and its default limit is -1 or positive; its [Close]
    does not panic. *)
Theorem NewServer_invariants
    (xs : list (setting Q M Mw)) (s : options.Server Q M Mw) :
  options.NewServer noOpMetrics filequeue_New (map option_of xs) = inl s →
  options.q s ≠ None
  ∧ options.metrics s ≠ None
  ∧ options.isClosed s = false
  ∧ options.dirs s ≠ []
  ∧ 0 ≤ options.qFileEntries s
  ∧ (options.defaultLimit s = -1 ∨ 0 < options.defaultLimit s)
  ∧ (options.Server_Close s).2 ≠ filequeue.Panicked.
Proof.
  intros Hnew. destruct (NewServer_ok xs s Hnew) as (Hall & q' & Hq & ->).
  unfold options.Server_Close.
  cbn [options.qFileCache options.qFileEntries options.defaultLimit options.dirs
       options.metrics options.middlewares options.router options.used options.q
       options.isClosed settled options.initial] in *.
  split; [done|]. split; [by destruct (last _)|]. split; [done|].
  split; [|split; [|split]].
  - apply (lastOf_ind (λ d, d ≠ [])); [done|].
    eapply Forall_impl; [exact Hall|]. intros [] Hx y; cbn; try done.
    intros [= <-]. exact Hx.
  - apply (lastOf_ind (λ n, 0 ≤ n)); [done|].
    eapply Forall_impl; [exact Hall|]. intros [] Hx y; cbn; try done.
    intros [= <-]. cbn in Hx. lia.
  - apply (lastOf_ind (λ n, n = -1 ∨ 0 < n)); [by left|].
    apply Forall_forall. intros [] _ y; cbn; try done.
    intros [= <-]. unfold storedLimit. case_bool_decide; [by left|right; lia].
  - by destruct (options.Close q').
Qed.

End server_options.

Section main_options.
Context {Q M Mw : Type} {HQ : options.Queue Q}.
Context (noOpMetrics : M) (filequeue_New : bool → Z → list string → Q + error).

(** Whatever the flags, [NewServer] accepts the options that [main]
    builds: start-up fails only when [filequeue.New] does.  The queue is
    made with the [-cache] flag, with [-entries] when positive and 5000
    otherwise, in the directory [.haraqa]; the default limit is
    [-limit] when positive and -1 otherwise; with [-prometheus] the
    metrics and the one middleware of [promMetrics] are installed, and
    without it the no-op metrics and no middleware. *)
Theorem main_options_accepted (f : main.Flags) (middleware : Mw) (metrics : M) :
  options.NewServer noOpMetrics filequeue_New (main.opts f middleware metrics)
  = match filequeue_New (main.fileCache f)
            (if bool_decide (0 < main.fileEntries f) then main.fileEntries f else 5000)
            [".haraqa"] with
    | inr e => inr e
    | inl q' =>
        inl {| options.router :=
                 {| options.used := if main.promEnabled f then [middleware] else [];
                    options.raw := Some (options.RootDir q');
                    options.routes := options.topicRoutes |};
               options.q := Some q';
               options.qFileCache := main.fileCache f;
               options.qFileEntries :=
                 if bool_decide (0 < main.fileEntries f) then main.fileEntries f else 5000;
               options.defaultLimit :=
                 if bool_decide (0 < main.consumeLimit f) then main.consumeLimit f else -1;
               options.dirs := [".haraqa"];
               options.metrics := Some (if main.promEnabled f then metrics else noOpMetrics);
               options.isClosed := false;
               options.middlewares := if main.promEnabled f then [middleware] else [] |}
    end.
Proof.
  destruct f as [cache entries prom limit]. unfold main.opts, options.NewServer.
  cbn [main.fileCache main.fileEntries main.promEnabled main.consumeLimit].
  destruct cache, prom; cbn [negb]; repeat case_bool_decide; cbn;
    unfold options.WithFileEntries, options.WithDefaultConsumeLimit; cbn;
    rewrite ?(bool_decide_eq_false_2 (entries < 0)) by lia; cbn;
    rewrite ?(bool_decide_eq_false_2 (limit ≤ 0)) by lia; cbn;
    rewrite ?(bool_decide_eq_true_2 (0 < 1)%nat) by lia;
    rewrite ?(bool_decide_eq_false_2 (0 < 0)%nat) by lia;
    reflexivity.
Qed.

End main_options.

(** * The further statements on concrete inputs *)

Section more_runs.
#[local] Existing Instance strings.ascii.
#[local] Existing Instance mock.codec.
#[local] Existing Instance doubles.sizes.

Import filequeue.

Lemma WriteAt_stops_at_first_failure_witness :
  (MultiWriteAtCloser.WriteAt (mirrors ++ [mock.newFile 8 None]) abc 0).2
  = Some (New "no space left")
  ∧ ∃ before w rest,
      (mirrors ++ [mock.newFile 8 None])%list = (before ++ w :: rest)%list
      ∧ (MultiWriteAtCloser.WriteAt (mirrors ++ [mock.newFile 8 None]) abc 0).1
        = (map (afterWrite abc 0) before ++ afterWrite abc 0 w :: rest)%list.
Proof.
  split; [vm_compute; reflexivity|].
  destruct (WriteAt_stops_at_first_failure (HW := mock.File_WriteAtCloser) (mirrors ++ [mock.newFile 8 None]) abc 0
              (New "no space left") ltac:(vm_compute; reflexivity))
    as (before & w & rest & Hsplit & _ & _ & Hstates & _).
  exists before, w, rest. by split.
Defined.

Lemma CopyNAt_copies_first_bytes_witness :
  0 ≤ 4 ∧ (Z.to_nat 4 ≤ length (mock.data (source abcdef)))%nat ∧ (Z.to_nat 4 ≤ 4)%nat
  ∧ ∃ r', MultiWriteAtCloser.CopyNAt 4 [x00; x00] [mock.newFile 8 None] (source abcdef) 4 1
          = Some (r', (MultiWriteAtCloser.WriteAt [mock.newFile 8 None]
                         [x61; x62; x63; x64] 1).1,
                  Returned None)
          ∧ mock.data r' = [x65; x66].
Proof.
  split; [lia|]. split; [vm_compute; lia|]. split; [lia|].
  destruct (CopyNAt_copies_first_bytes 4 [x00; x00] [mock.newFile 8 None] (source abcdef) 4 1
              ltac:(lia) ltac:(vm_compute; lia) ltac:(lia)) as (r' & Hrun & Hrest).
  exists r'. split; [exact Hrun|exact Hrest].
Defined.

Lemma CopyNAt_short_stream_witness :
  (length (mock.data (source abc)) < Z.to_nat 5)%nat ∧ (Z.to_nat 5 ≤ 5)%nat
  ∧ ∃ r', MultiWriteAtCloser.CopyNAt 5 [] mirrors (source abc) 5 0
          = Some (r', mirrors, Returned (Some (Wrap ErrUnexpectedEOF "unable to read input")))
          ∧ mock.data r' = [].
Proof.
  split; [vm_compute; lia|]. split; [lia|].
  exact (CopyNAt_short_stream 5 [] mirrors (source abc) 5 0
           ltac:(vm_compute; lia) ltac:(lia)).
Defined.

Lemma getTopic_accepts_its_results_witness :
  LowerLaws
  ∧ server.getTopic (mock.request "/topics/Logs//EU/../Audit/" [] [] None)
    = ("logs/audit", None)
  ∧ server.getTopic (mock.request "/topics/logs/audit" [] [] None) = ("logs/audit", None).
Proof.
  split; [exact ascii_LowerLaws|].
  assert (Hrun : server.getTopic (mock.request "/topics/Logs//EU/../Audit/" [] [] None)
                 = ("logs/audit", None)) by (vm_compute; reflexivity).
  split; [exact Hrun|].
  exact (getTopic_accepts_its_results ascii_LowerLaws _
           (mock.request "/topics/logs/audit" [] [] None) _ Hrun eq_refl).
Defined.

Lemma getTopic_shape_witness :
  server.getTopic (mock.request "/topics/../../Etc/./x" [] [] None) = ("../../etc/x", None)
  ∧ ∃ (isRooted : bool) (k : nat) (names : list string),
      Forall plain names
      ∧ "../../etc/x" = (if isRooted then "/" else "")
                        +:+ strings.Join (replicate k ".." ++ names) "/".
Proof.
  assert (Hrun : server.getTopic (mock.request "/topics/../../Etc/./x" [] [] None)
                 = ("../../etc/x", None)) by (vm_compute; reflexivity).
  split; [exact Hrun|].
  destruct (getTopic_shape _ _ Hrun) as (isRooted & k & names & Hplain & _ & _ & Hshape).
  by exists isRooted, k, names.
Defined.

Lemma HandleOptions_allows_canonical_names_witness :
  ∃ allowed,
    http.header
      (server.HandleOptions (mock.newServer (queue None 0) 10) http.NewRecorder
         (mock.request "/topics/t1" []
            [("Access-Control-Request-Headers", [" x-sizes "; "  "; "content-TYPE"])]
            None)).2
    !! "Access-Control-Allow-Headers" = Some allowed
    ∧ allowed = ["X-Sizes"; "Content-Type"]
    ∧ Forall (λ h, h ≠ "" ∧ http.CanonicalHeaderKey h = h) allowed.
Proof.
  exists ["X-Sizes"; "Content-Type"].
  assert (Hrun :
    http.header
      (server.HandleOptions (mock.newServer (queue None 0) 10) http.NewRecorder
         (mock.request "/topics/t1" []
            [("Access-Control-Request-Headers", [" x-sizes "; "  "; "content-TYPE"])]
            None)).2
    !! "Access-Control-Allow-Headers" = Some ["X-Sizes"; "Content-Type"])
    by (vm_compute; reflexivity).
  split; [exact Hrun|]. split; [done|].
  exact (proj2 (HandleOptions_allows_canonical_names
                  (mock.newServer (queue None 0) 10) http.NewRecorder
                  (mock.request "/topics/t1" []
                     [("Access-Control-Request-Headers",
                       [" x-sizes "; "  "; "content-TYPE"])] None)
                  ["X-Sizes"; "Content-Type"] ltac:(vm_compute; reflexivity) Hrun)).
Defined.

Lemma HandleConsume_after_consume_witness :
  consuming 3 ["2"]
  = (server.record (server.withQueue (mock.newServer (queue None 3) 10)
                      (mock.called (queue None 3) "Consume"))
       (server.ConsumeMsgs 3), http.NewRecorder).
Proof.
  destruct (HandleConsume_after_consume (HQ := mock.Queue_Queue) (HU := strings.ascii)
              (mock.newServer (queue None 3) 10) http.NewRecorder
              (mock.request "/topics/t1" [("id", ["0"]); ("limit", ["2"])] [] None)
              "t1" 0 2 (mock.called (queue None 3) "Consume") http.NewRecorder 3 None
              ltac:(vm_compute; reflexivity) ltac:(vm_compute; reflexivity)
              ltac:(vm_compute; reflexivity) ltac:(vm_compute; reflexivity))
    as (_ & Hok).
  destruct (Hok eq_refl ltac:(lia)) as (Hrun & _). exact Hrun.
Defined.

Lemma HandleCreateTopic_creates_normalized_witness :
  LowerLaws
  ∧ ∃ topic,
      server.getTopic (admin "/topics/Orders//EU/" None []) = (topic, None)
      ∧ topic = "orders/eu"
      ∧ http.code (topics.HandleCreateTopic (mock.newServer (queue None 0) 10)
                     http.NewRecorder (admin "/topics/Orders//EU/" None [])).2 = 201.
Proof.
  split; [exact ascii_LowerLaws|].
  destruct (HandleCreateTopic_creates_normalized (HQ := doubles.Queue_topics)
              ascii_LowerLaws (mock.newServer (queue None 0) 10) http.NewRecorder
              (admin "/topics/Orders//EU/" None []))
    as [Hbad|(topic & Htopic & _ & _ & _ & Hresp)].
  - vm_compute in Hbad. discriminate.
  - exists topic. split; [exact Htopic|].
    vm_compute in Htopic. injection Htopic as <-. split; [reflexivity|].
    rewrite Hresp. vm_compute. reflexivity.
Defined.

Lemma HandleDeleteTopic_deletes_normalized_witness :
  LowerLaws
  ∧ ∃ topic,
      server.getTopic (admin "/topics/Orders//EU/" None []) = (topic, None)
      ∧ topic = "orders/eu"
      ∧ http.code (topics.HandleDeleteTopic (mock.newServer (queue None 0) 10)
                     http.NewRecorder (admin "/topics/Orders//EU/" None [])).2 = 204.
Proof.
  split; [exact ascii_LowerLaws|].
  destruct (HandleDeleteTopic_deletes_normalized (HQ := doubles.Queue_topics)
              ascii_LowerLaws (mock.newServer (queue None 0) 10) http.NewRecorder
              (admin "/topics/Orders//EU/" None []))
    as [Hbad|(topic & Htopic & _ & _ & _ & Hresp)].
  - vm_compute in Hbad. discriminate.
  - exists topic. split; [exact Htopic|].
    vm_compute in Htopic. injection Htopic as <-. split; [reflexivity|].
    rewrite Hresp. vm_compute. reflexivity.
Defined.

Lemma HandleProduce_validates_then_produces_witness :
  LowerLaws
  ∧ ∃ sizes,
      topics.ReadSizes (http.Header (admin "/topics/T1" (Some "abchello") ["3,5"]))
      = inl sizes
      ∧ sizes = [3; 5]
      ∧ server.metrics
          (topics.HandleProduce 1600000000 (mock.newServer (queue None 0) 10)
             http.NewRecorder (admin "/topics/T1" (Some "abchello") ["3,5"])).1
        = [server.ProduceMsgs 2].
Proof.
  split; [exact ascii_LowerLaws|].
  destruct (HandleProduce_validates_then_produces (HQ := doubles.Queue_topics)
              ascii_LowerLaws 1600000000 (mock.newServer (queue None 0) 10)
              http.NewRecorder (admin "/topics/T1" (Some "abchello") ["3,5"]))
    as [(e & Hbad & _)|(b & topic & sizes & _ & _ & _ & _ & Hsizes & _ & _ & Hmetrics & _)].
  - vm_compute in Hbad. discriminate.
  - exists sizes. split; [exact Hsizes|].
    vm_compute in Hsizes. injection Hsizes as <-. split; [reflexivity|].
    vm_compute. reflexivity.
Defined.

Example HandleProduce_rejections :
  map (λ r, http.header (topics.HandleProduce 0 (mock.newServer (queue None 0) 10)
                           http.NewRecorder r).2 !! "X-Error")
      [admin "/topics/." None ["x"]; admin "/topics/." (Some "") ["x"];
       admin "/topics/t" (Some "") ["x"]; admin "/topics/t" (Some "") ["1"]]
  = [Some ["invalid-body-missing"]; Some ["invalid-topic"]; Some ["invalid syntax"]; None].
Proof. vm_compute. reflexivity. Qed.

Lemma NewServer_first_refused_option_witness :
  ∃ msg, options.NewServer (Q := mock.Queue) 0%nat (λ _ _ _, inl (queue None 0))
           (map option_of (given ++ Entries_ (-1) :: [Dirs_ []]))
         = inr (Wrap (New msg) "invalid option")
    ∧ msg = "invalid FileEntries, value must not be negative".
Proof.
  apply (NewServer_first_refused_option 0%nat (λ _ _ _, inl (queue None 0))
           given [Dirs_ []] (Entries_ (-1))).
  - unfold given. repeat constructor; cbn; first [tauto | lia].
  - cbn. lia.
Defined.

Lemma NewServer_last_setting_wins_witness :
  options.NewServer 0%nat (λ _ _ _, inl (queue None 0)) (map option_of given) = inl made
  ∧ options.defaultLimit made = lastOf (λ x, storedLimit <$> asLimit x) given (-1)
  ∧ options.middlewares made = concat (map asMiddleware given).
Proof.
  assert (Hrun : options.NewServer 0%nat (λ _ _ _, inl (queue None 0)) (map option_of given)
                 = inl made) by (vm_compute; reflexivity).
  split; [exact Hrun|].
  destruct (NewServer_last_setting_wins 0%nat (λ _ _ _, inl (queue None 0)) given made Hrun)
    as (_ & _ & Hlimit & _ & _ & Hmws & _).
  by split.
Defined.

Lemma NewServer_invariants_witness :
  options.NewServer 0%nat (λ _ _ _, inl (queue None 0)) (map option_of given) = inl made
  ∧ (options.Server_Close made).2 ≠ Panicked.
Proof.
  assert (Hrun : options.NewServer 0%nat (λ _ _ _, inl (queue None 0)) (map option_of given)
                 = inl made) by (vm_compute; reflexivity).
  split; [exact Hrun|].
  destruct (NewServer_invariants 0%nat (λ _ _ _, inl (queue None 0)) given made Hrun)
    as (_ & _ & _ & _ & _ & _ & Hclose).
  exact Hclose.
Defined.

End more_runs.
